(** * LaTeX Exam Generator: verification of [src/App.tsx]

    A shallow embedding of the request pipeline of the [App] component:
    the configuration setters, the attachment store, the preview
    object-URL lifecycle, the asynchronous [handleGenerate] handler and the
    sanitisation of the model's reply.

    JavaScript strings are sequences of UTF-16 code units; they are modelled
    as [list N].  React state is a record that is passed explicitly; an
    [async] function is a resumable computation whose suspension points
    ([await]) are explicit. *)

From Stdlib Require Import ZArith NArith List Bool Lia String Ascii.
From stdpp Require Import base list.
Import ListNotations.

Local Open Scope Z_scope.

(** ** JavaScript strings *)

Module JS.

(** A string is its sequence of UTF-16 code units. *)
Abbreviation jsstring := (list N).

(** Source literals are written in this file as UTF-8; [utf16_of_utf8]
    turns the bytes of such a literal into code units (a code point above
    the basic plane becomes a surrogate pair). *)
Fixpoint utf16_of_utf8 (bs : list N) : jsstring :=
  match bs with
  | [] => []
  | b :: r =>
      if (b <? 128)%N then b :: utf16_of_utf8 r
      else if (b <? 224)%N then
        match r with
        | c1 :: r1 =>
            N.lor (N.shiftl (N.land b 31) 6) (N.land c1 63) :: utf16_of_utf8 r1
        | [] => [65533%N]
        end
      else if (b <? 240)%N then
        match r with
        | c1 :: c2 :: r2 =>
            N.lor (N.shiftl (N.land b 15) 12)
              (N.lor (N.shiftl (N.land c1 63) 6) (N.land c2 63))
            :: utf16_of_utf8 r2
        | _ => [65533%N]
        end
      else
        match r with
        | c1 :: c2 :: c3 :: r3 =>
            let cp :=
              N.lor (N.shiftl (N.land b 7) 18)
                (N.lor (N.shiftl (N.land c1 63) 12)
                   (N.lor (N.shiftl (N.land c2 63) 6) (N.land c3 63))) in
            let v := (cp - 65536)%N in
            (55296 + N.shiftr v 10)%N :: (56320 + N.land v 1023)%N
            :: utf16_of_utf8 r3
        | _ => [65533%N]
        end
  end.

Definition lit (s : string) : jsstring :=
  utf16_of_utf8 (map N_of_ascii (list_ascii_of_string s)).

(** [WhiteSpace] and [LineTerminator] of ECMAScript: what
    [String.prototype.trim] removes and what [parseInt] skips. *)
Definition is_white_space (c : N) : bool :=
  ((c =? 9) || (c =? 10) || (c =? 11) || (c =? 12) || (c =? 13)
   || (c =? 32) || (c =? 160) || (c =? 5760)
   || ((8192 <=? c) && (c <=? 8202))
   || (c =? 8232) || (c =? 8233) || (c =? 8239) || (c =? 8287)
   || (c =? 12288) || (c =? 65279))%N.

Fixpoint trimStart (s : jsstring) : jsstring :=
  match s with
  | c :: r => if is_white_space c then trimStart r else s
  | [] => []
  end.

Definition trimEnd (s : jsstring) : jsstring := rev (trimStart (rev s)).

(** A string with no white space in front. *)
Definition no_lead (s : jsstring) : Prop :=
  match s with
  | c :: _ => is_white_space c = false
  | [] => True
  end.

(** [s.trim()] *)
Definition trim (s : jsstring) : jsstring := trimEnd (trimStart s).

Definition code_unit_eqb (a b : N) : bool := (a =? b)%N.

(** [a === b] on strings: the same code units. *)
Fixpoint strict_eq (a b : jsstring) : bool :=
  match a, b with
  | [], [] => true
  | x :: a', y :: b' => code_unit_eqb x y && strict_eq a' b'
  | _, _ => false
  end.

(** [s.startsWith(p)] *)
Fixpoint startsWith (s p : jsstring) {struct p} : bool :=
  match p, s with
  | [], _ => true
  | _ :: _, [] => false
  | a :: p', b :: s' => code_unit_eqb a b && startsWith s' p'
  end.

(** [s.endsWith(p)] *)
Definition endsWith (s p : jsstring) : bool := startsWith (rev s) (rev p).

(** [s.replace(/^p/, '')] for a literal pattern [p]: the anchored pattern
    matches at offset 0 or nowhere. *)
Definition replace_at_start (p s : jsstring) : jsstring :=
  if startsWith s p then drop (length p) s else s.

(** [s.replace(/p$/, '')] for a literal pattern [p]: without the [m] flag
    [$] matches at the end of the input only. *)
Definition replace_at_end (p s : jsstring) : jsstring :=
  if endsWith s p then take (length s - length p)%nat s else s.

(** Value of a code unit as a digit: [0-9], [a-z], [A-Z]. *)
Definition digit_val (c : N) : option Z :=
  if ((48 <=? c) && (c <=? 57))%N then Some (Z.of_N c - 48)
  else if ((97 <=? c) && (c <=? 122))%N then Some (Z.of_N c - 87)
  else if ((65 <=? c) && (c <=? 90))%N then Some (Z.of_N c - 55)
  else None.

Definition radix_digit (R : Z) (c : N) : option Z :=
  match digit_val c with
  | Some d => if d <? R then Some d else None
  | None => None
  end.

(** The digits of the longest prefix of [s] made of radix-[R] digits. *)
Fixpoint digits_prefix (R : Z) (s : jsstring) : list Z :=
  match s with
  | c :: r =>
      match radix_digit R c with
      | Some d => d :: digits_prefix R r
      | None => []
      end
  | [] => []
  end.

(** [parseInt(s)] with no radix argument.  [None] is [NaN].  The result is
    the mathematical integer of the digits, which is the Number returned
    whenever its magnitude is below [2^53]. *)
Definition parseInt (s : jsstring) : option Z :=
  let s1 := trimStart s in
  let '(sign, s2) :=
    match s1 with
    | c :: r =>
        if (c =? 45)%N then (-1, r)
        else if (c =? 43)%N then (1, r) else (1, s1)
    | [] => (1, s1)
    end in
  let '(R, s3) :=
    match s2 with
    | c0 :: c1 :: r =>
        if ((c0 =? 48) && ((c1 =? 120) || (c1 =? 88)))%N
        then (16, r) else (10, s2)
    | _ => (10, s2)
    end in
  match digits_prefix R s3 with
  | [] => None
  | ds => Some (sign * fold_left (fun a d => a * R + d) ds 0)
  end.

(** [v || 0] on a Number: [NaN] and zero are falsy. *)
Definition or_zero (v : option Z) : Z :=
  match v with
  | Some n => if n =? 0 then 0 else n
  | None => 0
  end.

(** [s.split(',')[1]]: the text between the first and the second comma,
    [undefined] ([None]) when [s] has no comma. *)
Fixpoint upto_comma (s : jsstring) : jsstring :=
  match s with
  | c :: r => if (c =? 44)%N then [] else c :: upto_comma r
  | [] => []
  end.

Fixpoint split_comma_1 (s : jsstring) : option jsstring :=
  match s with
  | c :: r => if (c =? 44)%N then Some (upto_comma r) else split_comma_1 r
  | [] => None
  end.

(** Truthiness of a string: [!s] holds of the empty string only. *)
Definition is_empty (s : jsstring) : bool :=
  match s with [] => true | _ => false end.

End JS.

Import JS.

(** ** Data model *)

(** Modelled from the spec: [ExamDifficulty] is declared in [./types], which
    is not among the sources; the spec gives it as the enumeration EASY,
    MEDIUM, HARD. *)
Inductive ExamDifficulty := EASY | MEDIUM | HARD.

Inductive Language := vi | en.

Record ExamConfig := {
  topic : jsstring;
  grade : jsstring;
  difficulty : ExamDifficulty;
  numMultipleChoice : Z;
  numEssay : Z;
  useTikz : bool;
  varyData : bool;
  language : Language
}.

(** A [File]: display name, declared MIME type and content. *)
Record File := {
  name : jsstring;
  type : jsstring;
  bytes : list N
}.

(** ** ConfigStore: the [onChange] handlers of the form *)

(** [setConfig({ ...config, topic: e.target.value })] *)
Definition onChange_topic (value : jsstring) (config : ExamConfig) : ExamConfig :=
  {| topic := value;
     grade := grade config;
     difficulty := difficulty config;
     numMultipleChoice := numMultipleChoice config;
     numEssay := numEssay config;
     useTikz := useTikz config;
     varyData := varyData config;
     language := language config |}.

(** [setConfig({ ...config, numMultipleChoice: parseInt(e.target.value) || 0 })] *)
Definition onChange_numMultipleChoice (value : jsstring) (config : ExamConfig)
  : ExamConfig :=
  {| topic := topic config;
     grade := grade config;
     difficulty := difficulty config;
     numMultipleChoice := or_zero (parseInt value);
     numEssay := numEssay config;
     useTikz := useTikz config;
     varyData := varyData config;
     language := language config |}.

(** [setConfig({ ...config, numEssay: parseInt(e.target.value) || 0 })] *)
Definition onChange_numEssay (value : jsstring) (config : ExamConfig)
  : ExamConfig :=
  {| topic := topic config;
     grade := grade config;
     difficulty := difficulty config;
     numMultipleChoice := numMultipleChoice config;
     numEssay := or_zero (parseInt value);
     useTikz := useTikz config;
     varyData := varyData config;
     language := language config |}.

(** The bounds the two number inputs declare ([min], [max]). *)
Definition in_range (lo hi v : Z) : bool := (lo <=? v) && (v <=? hi).

(** ** AttachmentStore *)

(** [file.type === 'application/pdf' || file.type.startsWith('image/')] *)
Definition accepted (file : File) : bool :=
  strict_eq (type file) (lit "application/pdf")
  || startsWith (type file) (lit "image/").

(** [handleFileChange]: the files chosen in the picker are appended as they
    are ([e.target.files] absent counts as empty). *)
Definition handleFileChange (targetFiles : list File) (files : list File)
  : list File :=
  if (0 <? length targetFiles)%nat then files ++ targetFiles else files.

(** [onDrop]: the dropped files are filtered by [accepted] and appended. *)
Definition onDrop (dataTransferFiles : list File) (files : list File)
  : list File :=
  if (0 <? length dataTransferFiles)%nat
  then files ++ List.filter accepted dataTransferFiles
  else files.

(** [arr.filter((x, index) => p x index)], the index counted from [i]. *)
Fixpoint filter_index {A} (p : A -> nat -> bool) (i : nat) (l : list A)
  : list A :=
  match l with
  | [] => []
  | x :: r =>
      if p x i then x :: filter_index p (S i) r else filter_index p (S i) r
  end.

(** The callback [(_, index) => index !== indexToRemove].  The argument of
    [removeFile] is a Number; an integer stands for it, since a fractional
    value or [NaN] equals no index, as an integer out of range does. *)
Definition keep {A} (indexToRemove : Z) : A -> nat -> bool :=
  fun _ index => negb (Z.of_nat index =? indexToRemove).

(** [removeFile]: [prev.filter((_, index) => index !== indexToRemove)] *)
Definition removeFile (indexToRemove : Z) (files : list File) : list File :=
  filter_index (keep indexToRemove) 0%nat files.

(** ** Output sanitizer (the tail of [handleGenerate]) *)

Definition fence_latex : jsstring := lit "```latex".
Definition fence : jsstring := lit "```".

(** [[
      if (text.startsWith('```latex')) {
        text = text.replace(/^```latex/, '').replace(/```$/, '');
      } else if (text.startsWith('```')) {
        text = text.replace(/^```/, '').replace(/```$/, '');
      }
      ... text.trim()
    ]] *)
Definition sanitize (text : jsstring) : jsstring :=
  let text :=
    if startsWith text fence_latex
    then replace_at_end fence (replace_at_start fence_latex text)
    else if startsWith text fence
    then replace_at_end fence (replace_at_start fence text)
    else text in
  trim text.

(** ** RequestPipeline: [handleGenerate] *)

(** One part of the request contents. *)
Inductive Part :=
| TextPart (text : jsstring)
| InlineData (mimeType : jsstring) (data : option jsstring).

(** A thrown or rejected value, seen through its [message] property
    ([None]: no such property, as for the event a [FileReader] rejects
    with). *)
Record JsError := { message : option jsstring }.

(** How an awaited promise settles. *)
Inductive Settled (A : Type) :=
| Resolved (a : A)
| Rejected (err : JsError).
Arguments Resolved {A} a.
Arguments Rejected {A} err.

(** The reply of [generateContent], seen through its [text] property. *)
Record Response := { response_text : option jsstring }.

(** The React state the handler reads and writes, with the log of the
    requests handed to [ai.models.generateContent]. *)
Record State := {
  config : ExamConfig;
  files : list File;
  generatedCode : jsstring;
  isLoading : bool;
  error : option jsstring;
  calls : list (list Part)
}.

Definition setConfig (f : ExamConfig -> ExamConfig) (s : State) : State :=
  {| config := f (config s); files := files s;
     generatedCode := generatedCode s; isLoading := isLoading s;
     error := error s; calls := calls s |}.

Definition setFiles (f : list File -> list File) (s : State) : State :=
  {| config := config s; files := f (files s);
     generatedCode := generatedCode s; isLoading := isLoading s;
     error := error s; calls := calls s |}.

Definition setGeneratedCode (v : jsstring) (s : State) : State :=
  {| config := config s; files := files s;
     generatedCode := v; isLoading := isLoading s;
     error := error s; calls := calls s |}.

Definition setIsLoading (v : bool) (s : State) : State :=
  {| config := config s; files := files s;
     generatedCode := generatedCode s; isLoading := v;
     error := error s; calls := calls s |}.

Definition setError (v : option jsstring) (s : State) : State :=
  {| config := config s; files := files s;
     generatedCode := generatedCode s; isLoading := isLoading s;
     error := v; calls := calls s |}.

(** [ai.models.generateContent({ model, contents: { parts } })] is called:
    the request leaves. *)
Definition generateContent (parts : list Part) (s : State) : State :=
  {| config := config s; files := files s;
     generatedCode := generatedCode s; isLoading := isLoading s;
     error := error s; calls := calls s ++ [parts] |}.

Definition validation_message : jsstring :=
  lit "Vui lòng nhập chủ đề kiểm tra hoặc tải lên tài liệu.".

Definition default_error_message : jsstring :=
  lit "Đã có lỗi xảy ra khi tạo đề.".

(** [err.message || 'Đã có lỗi xảy ra khi tạo đề.'] *)
Definition message_or_default (err : JsError) : jsstring :=
  match message err with
  | Some m => if is_empty m then default_error_message else m
  | None => default_error_message
  end.

(** [response.text || ''] *)
Definition text_or_empty (response : Response) : jsstring :=
  match response_text response with
  | Some t => t
  | None => []
  end.

(** Where an invocation of the [async] handler is suspended. *)
Inductive Susp :=
| AwaitFile (file : File) (rest : list File) (parts : list Part)
    (* [await fileToBase64(file)], [rest] still to be visited *)
| AwaitResponse (parts : list Part)
    (* [await ai.models.generateContent(...)], the request sent *)
| Done.

(** What the event loop delivers to a suspended invocation: the
    [reader.result] of [readAsDataURL] or the rejection of [fileToBase64],
    or the outcome of the call. *)
Inductive Settlement :=
| FileRead (r : Settled jsstring)
| Replied (r : Settled Response).

(** The part the loop body pushes for [file]. *)
Definition inline_part (file : File) (result : jsstring) : Part :=
  InlineData (type file) (split_comma_1 result).

Section Pipeline.

(** The template literal [promptText] of [handleGenerate], a function of the
    configuration and of [files.length] (and of the template text that
    [getLatexTemplate] of [./types] supplies). *)
Variable promptText : ExamConfig -> nat -> jsstring.

(** The head of [for (const file of files)]: with a file left, the loop
    body starts its conversion and suspends; with none left the loop is
    over and the request is sent. *)
Definition for_files (fs : list File) (parts : list Part) (s : State)
  : State * Susp :=
  match fs with
  | file :: rest => (s, AwaitFile file rest parts)
  | [] => (generateContent parts s, AwaitResponse parts)
  end.

(** [handleGenerate()], run to its first suspension.  The constructor of
    the client and [getLatexTemplate] are taken to return; building
    [promptText] and [parts] has no effect on the state. *)
Definition handleGenerate (s : State) : State * Susp :=
  if is_empty (topic (config s)) && (length (files s) =? 0)%nat then
    (setError (Some validation_message) s, Done)
  else
    let s1 := setGeneratedCode [] (setError None (setIsLoading true s)) in
    for_files (files s)
      [TextPart (promptText (config s) (length (files s)))] s1.

(** [catch (err) { setError(...) } finally { setIsLoading(false) }] *)
Definition catch_finally (err : JsError) (s : State) : State :=
  setIsLoading false (setError (Some (message_or_default err)) s).

(** A suspended invocation continues with what it awaited. *)
Definition resume (k : Susp) (o : Settlement) (s : State) : State * Susp :=
  match k, o with
  | AwaitFile file rest parts, FileRead (Resolved result) =>
      for_files rest
        (parts ++ [inline_part file result]) s
  | AwaitFile _ _ _, FileRead (Rejected err) => (catch_finally err s, Done)
  | AwaitResponse _, Replied (Resolved response) =>
      (setIsLoading false
         (setGeneratedCode (sanitize (text_or_empty response)) s), Done)
  | AwaitResponse _, Replied (Rejected err) => (catch_finally err s, Done)
  | _, _ => (s, k)
  end.

(** *** One invocation run against a scripted environment *)

(** The conversions settle as [reads] says, in the order they are awaited;
    the call settles as [reply] says. *)
Record Env := {
  reads : list (Settled jsstring);
  reply : list Part -> Settled Response
}.

Fixpoint settle_reads (rs : list (Settled jsstring)) (s : State) (k : Susp)
  : State * Susp :=
  match rs, k with
  | r :: rs', AwaitFile _ _ _ =>
      let '(s', k') := resume k (FileRead r) s in settle_reads rs' s' k'
  | _, _ => (s, k)
  end.

Definition settle_call (reply : list Part -> Settled Response) (s : State)
  (k : Susp) : State * Susp :=
  match k with
  | AwaitResponse parts => resume k (Replied (reply parts)) s
  | _ => (s, k)
  end.

(** [handleGenerate()] followed by whatever it awaits, until it returns or
    waits for a conversion the script does not settle. *)
Definition run_handleGenerate (env : Env) (s : State) : State * Susp :=
  let '(s1, k1) := handleGenerate s in
  let '(s2, k2) := settle_reads (reads env) s1 k1 in
  settle_call (reply env) s2 k2.

(** *** The component as a transition system *)

(** The state of the component with the invocations of [handleGenerate]
    started so far. *)
Record World := {
  state : State;
  pending : list Susp
}.

Inductive Event :=
| ClickGenerate
    (* a click on the button [onClick={handleGenerate} disabled={isLoading}] *)
| CallHandleGenerate
    (* [handleGenerate()] itself, however it is reached *)
| Settle (i : nat) (o : Settlement)
    (* what invocation [i] awaits settles *)
| ChangeTopic (value : jsstring)
| ChangeNumMultipleChoice (value : jsstring)
| ChangeNumEssay (value : jsstring)
| PickFiles (fs : list File)
| DropFiles (fs : list File)
| RemoveFile (index : Z).

Definition invoke (w : World) : World :=
  let '(s, k) := handleGenerate (state w) in
  {| state := s; pending := pending w ++ [k] |}.

Definition step (w : World) (e : Event) : World :=
  match e with
  | ClickGenerate => if isLoading (state w) then w else invoke w
  | CallHandleGenerate => invoke w
  | Settle i o =>
      match pending w !! i with
      | Some k =>
          let '(s, k') := resume k o (state w) in
          {| state := s; pending := <[i := k']> (pending w) |}
      | None => w
      end
  | ChangeTopic v =>
      {| state := setConfig (onChange_topic v) (state w);
         pending := pending w |}
  | ChangeNumMultipleChoice v =>
      {| state := setConfig (onChange_numMultipleChoice v) (state w);
         pending := pending w |}
  | ChangeNumEssay v =>
      {| state := setConfig (onChange_numEssay v) (state w);
         pending := pending w |}
  | PickFiles fs =>
      {| state := setFiles (handleFileChange fs) (state w);
         pending := pending w |}
  | DropFiles fs =>
      {| state := setFiles (onDrop fs) (state w); pending := pending w |}
  | RemoveFile i =>
      {| state := setFiles (removeFile i) (state w); pending := pending w |}
  end.

Definition exec (w : World) (tr : list Event) : World := fold_left step tr w.

(** What a trace delivers to invocation [i], in order. *)
Fixpoint delivered (i : nat) (tr : list Event) : list Settlement :=
  match tr with
  | Settle j o :: tr' =>
      if Nat.eqb j i then o :: delivered i tr' else delivered i tr'
  | _ :: tr' => delivered i tr'
  | [] => []
  end.

(** Every event but a direct call of [handleGenerate]: what the rendered
    interface and the event loop deliver. *)
Definition from_ui (e : Event) : bool :=
  match e with
  | CallHandleGenerate => false
  | _ => true
  end.

(** An invocation that has not returned. *)
Definition active (k : Susp) : bool :=
  match k with
  | Done => false
  | _ => true
  end.

Definition count_active (l : list Susp) : nat := length (List.filter active l).

(** The invocations in flight. *)
Definition episodes (w : World) : nat := count_active (pending w).

(** The busy flag is set exactly while one invocation is in flight. *)
Definition flag_tracks_invocation (w : World) : Prop :=
  episodes w = if isLoading (state w) then 1%nat else 0%nat.

End Pipeline.

(** The [useState] initial values. *)
Definition initial_config : ExamConfig :=
  {| topic := []; grade := lit "6"; difficulty := MEDIUM;
     numMultipleChoice := 10; numEssay := 2;
     useTikz := true; varyData := false; language := vi |}.

Definition initial_state : State :=
  {| config := initial_config; files := []; generatedCode := [];
     isLoading := false; error := None; calls := [] |}.

Definition initial_world : World :=
  {| state := initial_state; pending := [] |}.

(** ** PreviewManager: the preview object URL *)

Module Preview.

(** The MIME type of a [File] (the record below has a [type] of its own). *)
Definition mime (file : File) : jsstring := type file.
Definition title (file : File) : jsstring := name file.

(** Object URLs are told apart by a serial number: every
    [URL.createObjectURL] returns a URL never returned before. *)
Abbreviation Url := nat.

Inductive Kind := image | pdf.

(** The value of the [previewFile] state. *)
Record PreviewFile := {
  url : Url;
  type : Kind;
  name : jsstring
}.

(** The browser's blob URL store, with the log of the calls of
    [URL.revokeObjectURL]. *)
Record Browser := {
  store : list Url;
  next : Url;
  revocations : list Url
}.

Definition createObjectURL (b : Browser) : Url * Browser :=
  (next b,
   {| store := store b ++ [next b]; next := S (next b);
      revocations := revocations b |}).

(** Revoking a URL that is not in the store changes nothing there; the call
    is logged all the same. *)
Definition revokeObjectURL (u : Url) (b : Browser) : Browser :=
  {| store := List.filter (fun v => negb (Nat.eqb v u)) (store b);
     next := next b;
     revocations := revocations b ++ [u] |}.

(** The component: the [previewFile] state, and the [previewFile] that the
    cleanup function of the effect mounted by the last render closes
    over. *)
Record Component := {
  previewFile : option PreviewFile;
  captured : option PreviewFile;
  mounted : bool
}.

(** [handlePreview(file)] *)
Definition handlePreview (file : File) (c : Component) (b : Browser)
  : Component * Browser :=
  let '(u, b') := createObjectURL b in
  let t := if strict_eq (mime file) (lit "application/pdf") then pdf else image in
  ({| previewFile := Some {| url := u; type := t; name := title file |};
      captured := captured c; mounted := mounted c |}, b').

(** [closePreview()] *)
Definition closePreview (c : Component) (b : Browser) : Component * Browser :=
  match previewFile c with
  | Some p =>
      ({| previewFile := None; captured := captured c; mounted := mounted c |},
       revokeObjectURL (url p) b)
  | None => (c, b)
  end.

(** The cleanup function returned by the effect:
    [if (previewFile) URL.revokeObjectURL(previewFile.url)], on the
    [previewFile] of the render that mounted the effect. *)
Definition cleanup (c : Component) (b : Browser) : Browser :=
  match captured c with
  | Some p => revokeObjectURL (url p) b
  | None => b
  end.

(** The state values are objects made by [handlePreview], or [null]: two
    of them are the same value exactly when their URLs are. *)
Definition same_value (a b : option PreviewFile) : bool :=
  match a, b with
  | None, None => true
  | Some p, Some q => Nat.eqb (url p) (url q)
  | _, _ => false
  end.

(** The render that follows a handler: with the dependency [previewFile]
    changed, the old effect is cleaned up and the effect is mounted anew. *)
Definition commit (c : Component) (b : Browser) : Component * Browser :=
  if same_value (previewFile c) (captured c) then (c, b)
  else
    ({| previewFile := previewFile c; captured := previewFile c;
        mounted := mounted c |}, cleanup c b).

(** The component is torn down: the mounted effect is cleaned up. *)
Definition unmount (c : Component) (b : Browser) : Component * Browser :=
  ({| previewFile := previewFile c; captured := captured c; mounted := false |},
   cleanup c b).

Inductive Event :=
| Open (file : File)
| Close
| Unmount.

Definition step (cb : Component * Browser) (e : Event) : Component * Browser :=
  let '(c, b) := cb in
  if mounted c then
    match e with
    | Open file => let '(c', b') := handlePreview file c b in commit c' b'
    | Close => let '(c', b') := closePreview c b in commit c' b'
    | Unmount => unmount c b
    end
  else cb.

Definition exec (cb : Component * Browser) (tr : list Event)
  : Component * Browser := fold_left step tr cb.

Definition initial : Component * Browser :=
  ({| previewFile := None; captured := None; mounted := true |},
   {| store := []; next := 0%nat; revocations := [] |}).

(** The URLs that are live: created and not revoked. *)
Definition live (cb : Component * Browser) : list Url := store (snd cb).

(** How many times [u] was handed to [URL.revokeObjectURL]. *)
Definition releases (u : Url) (cb : Component * Browser) : nat :=
  count_occ Nat.eq_dec (revocations (snd cb)) u.

(** After every event: the effect closes over the current [previewFile];
    while the component is mounted the live URLs are exactly the URL of the
    preview shown, and none once it is torn down. *)
Definition consistent (cb : Component * Browser) : Prop :=
  let '(c, b) := cb in
  captured c = previewFile c
  /\ (forall p, previewFile c = Some p -> (url p < next b)%nat)
  /\ store b
     = if mounted c
       then match previewFile c with Some p => [url p] | None => [] end
       else [].

End Preview.

(** ** Concrete inputs used by the examples below *)

Definition sample_prompt : ExamConfig -> nat -> jsstring :=
  fun _ _ => lit "PROMPT".

Definition file_png : File :=
  {| name := lit "a.png"; type := lit "image/png"; bytes := [137; 80]%N |}.

Definition file_pdf : File :=
  {| name := lit "b.pdf"; type := lit "application/pdf"; bytes := [37; 80]%N |}.

Definition file_txt : File :=
  {| name := lit "notes.txt"; type := lit "text/plain"; bytes := [104; 105]%N |}.

(** A fenced reply that is preceded by a blank. *)
Definition reply_indented_fence : jsstring :=
  lit " ```latex" ++ [10%N] ++ lit "X" ++ [10%N] ++ lit "```".

(** A reply fenced as the prompt's models usually fence it. *)
Definition reply_fenced : jsstring :=
  lit "```latex" ++ [10%N] ++ lit "\documentclass{article}" ++ [10%N] ++ lit "```".

(** Two attachments, A then B, and a topic. *)
Definition state_two_files : State :=
  {| config := onChange_topic (lit "Fractions") initial_config;
     files := [file_png; file_pdf]; generatedCode := lit "OLD";
     isLoading := false; error := None; calls := [] |}.

(** Nothing entered yet, an earlier result on display. *)
Definition state_empty_form : State :=
  {| config := initial_config; files := []; generatedCode := lit "OLD";
     isLoading := false; error := None; calls := [] |}.

Definition reply_ok : list Part -> Settled Response :=
  fun _ => Resolved {| response_text := Some reply_fenced |}.

(** Both conversions succeed. *)
Definition env_ok : Env :=
  {| reads := [Resolved (lit "data:image/png;base64,iVA=");
               Resolved (lit "data:application/pdf;base64,JVA=")];
     reply := reply_ok |}.

(** The conversion of B fails, with the event of a [FileReader]. *)
Definition env_second_read_fails : Env :=
  {| reads := [Resolved (lit "data:image/png;base64,iVA=");
               Rejected {| message := None |}];
     reply := reply_ok |}.

(** The topic of the spec's scenario, no attachment. *)
Definition state_fractions : State :=
  {| config := onChange_topic (lit "Fractions") initial_config;
     files := []; generatedCode := []; isLoading := false; error := None;
     calls := [] |}.

(** The model answers with a bare fence around [DOC]. *)
Definition env_doc : Env :=
  {| reads := [];
     reply := fun _ =>
       Resolved {| response_text :=
         Some (lit "```" ++ [10%N] ++ lit "DOC" ++ [10%N] ++ lit "```") |} |}.

(** ** The rest of the component *)

(** *** Numbers shown in the form *)

(** The decimal digits of [n >= 0], most significant first, in front of
    [acc]; [fuel] bounds the number of digits. *)
Fixpoint decimal_digits (fuel : nat) (n : Z) (acc : list Z) : list Z :=
  match fuel with
  | O => acc
  | S fuel' =>
      if n <? 10 then n :: acc
      else decimal_digits fuel' (n / 10) (n mod 10 :: acc)
  end.

Definition digit_code (d : Z) : N := Z.to_N (48 + d).

(** [String(n)], as React writes [value={config.numMultipleChoice}] into the
    input: for an integer of magnitude below [10^21], an optional minus
    sign and the decimal digits. *)
Definition toString (n : Z) : jsstring :=
  let m := Z.abs n in
  let ds := map digit_code (decimal_digits (S (Z.to_nat (Z.log2 m))) m []) in
  if n <? 0 then 45%N :: ds else ds.

Definition is_digit (d : Z) : Prop := 0 <= d <= 9.

(** The value [parseInt] gives to a list of digits in radix 10. *)
Definition decimal_value (ds : list Z) : Z :=
  fold_left (fun a d => a * 10 + d) ds 0.

(** Text after which a decimal number is over: nothing, or text that begins
    with a code unit that is neither a decimal digit nor [x] or [X] (which
    after a lone [0] would announce hexadecimal digits). *)
Definition ends_number (rest : jsstring) : bool :=
  match rest with
  | [] => true
  | c :: _ =>
      match radix_digit 10 c with
      | Some _ => false
      | None => negb ((c =? 120) || (c =? 88))%N
      end
  end.

(** *** The other setters of the form *)

(** [setConfig({...config, language: l})] *)
Definition onClick_language (l : Language) (config : ExamConfig) : ExamConfig :=
  {| topic := topic config;
     grade := grade config;
     difficulty := difficulty config;
     numMultipleChoice := numMultipleChoice config;
     numEssay := numEssay config;
     useTikz := useTikz config;
     varyData := varyData config;
     language := l |}.

(** [setConfig({ ...config, grade: e.target.value })] *)
Definition onChange_grade (value : jsstring) (config : ExamConfig) : ExamConfig :=
  {| topic := topic config;
     grade := value;
     difficulty := difficulty config;
     numMultipleChoice := numMultipleChoice config;
     numEssay := numEssay config;
     useTikz := useTikz config;
     varyData := varyData config;
     language := language config |}.

(** [setConfig({...config, useTikz: !config.useTikz})] *)
Definition onClick_useTikz (config : ExamConfig) : ExamConfig :=
  {| topic := topic config;
     grade := grade config;
     difficulty := difficulty config;
     numMultipleChoice := numMultipleChoice config;
     numEssay := numEssay config;
     useTikz := negb (useTikz config);
     varyData := varyData config;
     language := language config |}.

(** [setConfig({...config, varyData: !config.varyData})] *)
Definition onClick_varyData (config : ExamConfig) : ExamConfig :=
  {| topic := topic config;
     grade := grade config;
     difficulty := difficulty config;
     numMultipleChoice := numMultipleChoice config;
     numEssay := numEssay config;
     useTikz := useTikz config;
     varyData := negb (varyData config);
     language := language config |}.

(** The state in which an invocation leaves the guard of [handleGenerate]. *)
Definition started (s : State) : State :=
  setGeneratedCode [] (setError None (setIsLoading true s)).

(** The call is rejected with a message of the provider. *)
Definition env_quota : Env :=
  {| reads := [Resolved (lit "data:image/png;base64,iVA=");
               Resolved (lit "data:application/pdf;base64,JVA=")];
     reply := fun _ => Rejected {| message := Some (lit "quota exceeded") |} |}.

(** The conversion of A resolves, that of B does not settle. *)
Definition env_first_read_only : Env :=
  {| reads := [Resolved (lit "data:image/png;base64,iVA=")];
     reply := reply_ok |}.

(** *** What the render shows *)

(** The conditional parts of the JSX, as functions of the state. *)
Record View := {
  generate_disabled : bool;   (* [disabled={isLoading}] *)
  error_banner : bool;        (* [{error && (...)}] *)
  copy_button : bool;         (* [{generatedCode && (...)}] *)
  placeholder : bool;         (* [{!generatedCode && !isLoading && (...)}] *)
  progress : bool;            (* [{isLoading && (...)}] *)
  file_list : bool            (* [{files.length > 0 && (...)}] *)
}.

Definition render (s : State) : View :=
  {| generate_disabled := isLoading s;
     error_banner :=
       match error s with
       | Some m => negb (is_empty m)
       | None => false
       end;
     copy_button := negb (is_empty (generatedCode s));
     placeholder := is_empty (generatedCode s) && negb (isLoading s);
     progress := isLoading s;
     file_list := (0 <? length (files s))%nat |}.

(** *** Predicates on requests, invocations and events *)

Definition is_inline (p : Part) : bool :=
  match p with
  | InlineData _ _ => true
  | TextPart _ => false
  end.

(** A request made of one text part followed by inline data parts only. *)
Definition is_request (parts : list Part) : bool :=
  match parts with
  | TextPart _ :: others => forallb is_inline others
  | _ => false
  end.

(** The parts an invocation holds. *)
Definition held_parts (k : Susp) : option (list Part) :=
  match k with
  | AwaitFile _ _ parts => Some parts
  | AwaitResponse parts => Some parts
  | Done => None
  end.

Definition held_ok (k : Susp) : bool :=
  match held_parts k with
  | Some parts => is_request parts
  | None => true
  end.

(** Every request sent and every list of parts held has that shape. *)
Definition requests_ok (w : World) : Prop :=
  Forall (fun req => is_request req = true) (calls (state w))
  /\ Forall (fun k => held_ok k = true) (pending w).

(** While the busy flag is set the output is empty and no error is shown. *)
Definition busy_is_blank (s : State) : Prop :=
  isLoading s = true -> generatedCode s = [] /\ error s = None.

(** An invocation that has not sent its request yet. *)
Definition awaiting_file (k : Susp) : bool :=
  match k with
  | AwaitFile _ _ _ => true
  | _ => false
  end.

(** Events other than a choice in the file picker. *)
Definition not_picker (e : Event) : bool :=
  match e with
  | PickFiles _ => false
  | _ => true
  end.

(** *** Accounting of the preview URLs *)

(** The URLs created so far are those below [next]: each is in the store or
    was revoked, never both, and nothing else was revoked. *)
Definition accounted (cb : Preview.Component * Preview.Browser) : Prop :=
  forall u : nat,
    ((u < Preview.next (snd cb))%nat
     <-> In u (Preview.store (snd cb)) \/ In u (Preview.revocations (snd cb)))
    /\ (In u (Preview.store (snd cb))
        -> ~ In u (Preview.revocations (snd cb))).

(** The URL of the preview on display, if the component is mounted and
    shows one. *)
Definition shown_url (cb : Preview.Component * Preview.Browser) : option nat :=
  if Preview.mounted (fst cb)
  then option_map Preview.url (Preview.previewFile (fst cb))
  else None.

(** * Properties *)

(** ** Strings *)

Example lit_ascii : lit "```" = [96; 96; 96]%N.
Proof. reflexivity. Qed.

Example lit_bmp : lit "đề" = [273; 7873]%N.
Proof. reflexivity. Qed.

Example parseInt_42 : parseInt (lit " 42px") = Some 42.
Proof. reflexivity. Qed.

Example parseInt_hex : parseInt (lit "-0x1f") = Some (-31).
Proof. reflexivity. Qed.

Example parseInt_empty : parseInt (lit "") = None.
Proof. reflexivity. Qed.

Example trim_both : trim (lit "  a b  ") = lit "a b".
Proof. reflexivity. Qed.

Example split_data_url :
  split_comma_1 (lit "data:image/png;base64,QUJD") = Some (lit "QUJD").
Proof. reflexivity. Qed.

Lemma trimStart_no_lead s : no_lead (trimStart s).
Proof.
  induction s as [|c r IH]; simpl; [exact I|].
  destruct (is_white_space c) eqn:E; [exact IH|exact E].
Qed.

Lemma trimStart_fixed s : no_lead s -> trimStart s = s.
Proof.
  destruct s as [|c r]; simpl; [reflexivity|].
  intros ->. reflexivity.
Qed.

Lemma trimStart_idem s : trimStart (trimStart s) = trimStart s.
Proof. apply trimStart_fixed, trimStart_no_lead. Qed.

Lemma trimStart_suffix s : exists ws, s = ws ++ trimStart s.
Proof.
  induction s as [|c r [ws IH]]; [exists []; reflexivity|].
  simpl. destruct (is_white_space c).
  - exists (c :: ws). simpl. f_equal. exact IH.
  - exists []. reflexivity.
Qed.

Lemma trimStart_length s : (length (trimStart s) <= length s)%nat.
Proof.
  destruct (trimStart_suffix s) as [ws E].
  rewrite E at 2. rewrite length_app. lia.
Qed.

Lemma trimEnd_prefix s : exists ws, s = trimEnd s ++ ws.
Proof.
  unfold trimEnd. destruct (trimStart_suffix (rev s)) as [ws E].
  exists (rev ws). rewrite <- rev_app_distr, <- E. symmetry. apply rev_involutive.
Qed.

Lemma trimEnd_idem s : trimEnd (trimEnd s) = trimEnd s.
Proof.
  unfold trimEnd. rewrite rev_involutive, trimStart_idem. reflexivity.
Qed.

Lemma trimEnd_no_lead s : no_lead s -> no_lead (trimEnd s).
Proof.
  intros H. destruct (trimEnd_prefix s) as [ws E].
  destruct (trimEnd s) as [|c r]; [exact I|].
  rewrite E in H. exact H.
Qed.

Lemma trimEnd_length s : (length (trimEnd s) <= length s)%nat.
Proof.
  destruct (trimEnd_prefix s) as [ws E].
  rewrite E at 2. rewrite length_app. lia.
Qed.

Lemma trim_no_lead s : no_lead (trim s).
Proof. apply trimEnd_no_lead, trimStart_no_lead. Qed.

Lemma trim_idem s : trim (trim s) = trim s.
Proof.
  unfold trim at 1. rewrite (trimStart_fixed (trim s)) by apply trim_no_lead.
  unfold trim. apply trimEnd_idem.
Qed.

Lemma trim_length s : (length (trim s) <= length s)%nat.
Proof.
  unfold trim. pose proof (trimEnd_length (trimStart s)).
  pose proof (trimStart_length s). lia.
Qed.

Lemma startsWith_length s p :
  startsWith s p = true -> (length p <= length s)%nat.
Proof.
  revert s. induction p as [|a p IH]; intros s H; simpl; [lia|].
  destruct s as [|b s]; simpl in *; [discriminate|].
  apply andb_true_iff in H as [_ H]. apply IH in H. lia.
Qed.

Lemma startsWith_app s p q :
  startsWith s (p ++ q) = true -> startsWith s p = true.
Proof.
  revert s. induction p as [|a p IH]; intros s H; [reflexivity|].
  destruct s as [|b s]; simpl in *; [discriminate|].
  apply andb_true_iff in H as [Hab H]. rewrite Hab. simpl. eauto.
Qed.

Lemma replace_at_start_length p s :
  startsWith s p = true ->
  length (replace_at_start p s) = (length s - length p)%nat.
Proof.
  intros H. unfold replace_at_start. rewrite H. apply length_drop.
Qed.

Lemma replace_at_end_length p s :
  (length (replace_at_end p s) <= length s)%nat.
Proof.
  unfold replace_at_end. destruct (endsWith s p); [|lia].
  rewrite length_take. lia.
Qed.

(** ** Output sanitizer *)

Lemma fence_latex_fence s :
  startsWith s fence_latex = true -> startsWith s fence = true.
Proof. apply (startsWith_app s fence (lit "latex")). Qed.

Lemma sanitize_unfenced s :
  startsWith s fence = false -> sanitize s = trim s.
Proof.
  intros H. unfold sanitize.
  destruct (startsWith s fence_latex) eqn:E.
  - apply fence_latex_fence in E. congruence.
  - rewrite H. reflexivity.
Qed.

(** The result is trimmed, whichever branch was taken. *)
Lemma sanitize_trimmed s : trim (sanitize s) = sanitize s.
Proof. unfold sanitize. apply trim_idem. Qed.

Lemma sanitize_fenced_shorter s :
  startsWith s fence = true -> (length (sanitize s) < length s)%nat.
Proof.
  intros H. pose proof (startsWith_length _ _ H) as Hl.
  change (length fence) with 3%nat in Hl.
  unfold sanitize. destruct (startsWith s fence_latex) eqn:E.
  - pose proof (trim_length
      (replace_at_end fence (replace_at_start fence_latex s))) as H1.
    pose proof (replace_at_end_length fence (replace_at_start fence_latex s)) as H2.
    pose proof (replace_at_start_length _ _ E) as H3.
    change (length fence_latex) with 8%nat in H3. lia.
  - rewrite H.
    pose proof (trim_length
      (replace_at_end fence (replace_at_start fence s))) as H1.
    pose proof (replace_at_end_length fence (replace_at_start fence s)) as H2.
    pose proof (replace_at_start_length _ _ H) as H3.
    change (length fence) with 3%nat in H3. lia.
Qed.

Example sanitize_spec_scenario :
  sanitize (lit "```" ++ [10%N] ++ lit "DOC" ++ [10%N] ++ lit "```") = lit "DOC".
Proof. reflexivity. Qed.

Example sanitize_reply_fenced :
  sanitize reply_fenced = lit "\documentclass{article}".
Proof. reflexivity. Qed.

(** C2, as stated, fails: a reply whose fence follows a blank is only
    trimmed, and the text that results starts with the fence, which a second
    pass strips. *)
Lemma sanitize_not_idempotent :
  sanitize reply_indented_fence
    = lit "```latex" ++ [10%N] ++ lit "X" ++ [10%N] ++ lit "```"
  /\ sanitize (sanitize reply_indented_fence) = lit "X"
  /\ sanitize (sanitize reply_indented_fence) <> sanitize reply_indented_fence.
Proof. repeat split; vm_compute; congruence. Qed.

(** A second pass leaves the sanitizer output as it is exactly when that
    output does not begin with the fence marker. *)
Lemma sanitize_idempotent_iff_unfenced (x : jsstring) :
  startsWith (sanitize x) fence = false
  <-> sanitize (sanitize x) = sanitize x.
Proof.
  split.
  - intros H. rewrite (sanitize_unfenced _ H). apply sanitize_trimmed.
  - intros H. destruct (startsWith (sanitize x) fence) eqn:E; [|reflexivity].
    apply sanitize_fenced_shorter in E. rewrite H in E. lia.
Qed.

(** ** ConfigStore *)

(** The stored count is a function of the entry alone: the previous value
    plays no part. *)
Lemma onChange_numMultipleChoice_stored v c :
  numMultipleChoice (onChange_numMultipleChoice v c) = or_zero (parseInt v).
Proof. reflexivity. Qed.

Lemma onChange_numEssay_stored v c :
  numEssay (onChange_numEssay v c) = or_zero (parseInt v).
Proof. reflexivity. Qed.

(** An entry that [parseInt] cannot read is stored as [0]. *)
Lemma onChange_numMultipleChoice_nan v c :
  parseInt v = None -> numMultipleChoice (onChange_numMultipleChoice v c) = 0.
Proof. intros H. simpl. rewrite H. reflexivity. Qed.

Lemma onChange_numEssay_nan v c :
  parseInt v = None -> numEssay (onChange_numEssay v c) = 0.
Proof. intros H. simpl. rewrite H. reflexivity. Qed.

Example onChange_numMultipleChoice_empty :
  numMultipleChoice (onChange_numMultipleChoice (lit "") initial_config) = 0.
Proof. reflexivity. Qed.

(** C1 at its failing inputs: the handlers store what [parseInt] reads,
    with no clamp, so an entry above the declared maximum or below the
    declared minimum reaches the configuration. *)
Theorem onChange_counts_not_clamped :
  numMultipleChoice (onChange_numMultipleChoice (lit "99") initial_config) = 99
  /\ in_range 0 50 99 = false
  /\ numEssay (onChange_numEssay (lit "-3") initial_config) = -3
  /\ in_range 0 10 (-3) = false.
Proof. repeat split. Qed.

(** ** AttachmentStore *)

(** Dropped files reach the store only if [accepted]. *)
Lemma onDrop_accepted dropped files :
  Forall (fun f => accepted f = true) files ->
  Forall (fun f => accepted f = true) (onDrop dropped files).
Proof.
  intros H. unfold onDrop. destruct (0 <? length dropped)%nat; [|exact H].
  apply Forall_app. split; [exact H|].
  apply List.Forall_forall. intros f Hf.
  apply List.filter_In in Hf. tauto.
Qed.

Example onDrop_discards_text :
  onDrop [file_png; file_txt; file_pdf] [] = [file_png; file_pdf].
Proof. reflexivity. Qed.

(** C8 at its failing input: a file of another type chosen in the file
    picker is appended as it is. *)
Theorem handleFileChange_not_filtered :
  accepted file_txt = false
  /\ handleFileChange [file_txt] [file_png] = [file_png; file_txt].
Proof. split; reflexivity. Qed.

Section RemoveFile.

Variable A : Type.
Variable n : Z.

Lemma filter_index_miss (l : list A) (i0 : nat) :
  n < Z.of_nat i0 \/ Z.of_nat i0 + Z.of_nat (length l) <= n ->
  filter_index (keep (A:=A) n) i0 l = l.
Proof.
  revert i0. induction l as [|x r IH]; intros i0 H; [reflexivity|].
  simpl in *. unfold keep at 1.
  destruct (Z.eqb_spec (Z.of_nat i0) n) as [E|E]; [lia|].
  simpl. f_equal. apply IH. lia.
Qed.

Lemma filter_index_hit (l : list A) (i0 k : nat) :
  n = Z.of_nat i0 + Z.of_nat k -> (k < length l)%nat ->
  filter_index (keep (A:=A) n) i0 l = take k l ++ drop (S k) l.
Proof.
  revert i0 k. induction l as [|x r IH]; intros i0 k Hn Hk; simpl in Hk; [lia|].
  simpl. unfold keep at 1.
  destruct (Z.eqb_spec (Z.of_nat i0) n) as [E|E]; simpl.
  - assert (k = 0%nat) as -> by lia. simpl. rewrite drop_0.
    apply filter_index_miss. lia.
  - destruct k as [|k]; [lia|]. simpl. f_equal.
    apply IH; lia.
Qed.

End RemoveFile.

Example removeFile_middle :
  removeFile 1 [file_png; file_txt; file_pdf] = [file_png; file_pdf].
Proof. reflexivity. Qed.

(** C10: [removeFile] is a total function; at an index that holds no
    element it returns the list as it is, and at a valid index it returns
    the elements before it followed by the elements after it. *)
Theorem removeFile_total_safe (index : Z) (fs : list File) :
  (~ (0 <= index < Z.of_nat (length fs)) -> removeFile index fs = fs)
  /\ (0 <= index < Z.of_nat (length fs) ->
      removeFile index fs
        = take (Z.to_nat index) fs ++ drop (S (Z.to_nat index)) fs
      /\ length (removeFile index fs) = (length fs - 1)%nat).
Proof.
  split; intros H.
  - apply filter_index_miss. lia.
  - assert (removeFile index fs
            = take (Z.to_nat index) fs ++ drop (S (Z.to_nat index)) fs) as E
      by (apply filter_index_hit; lia).
    split; [exact E|].
    rewrite E, length_app, length_take, length_drop. lia.
Qed.

Lemma removeFile_total_safe_witness :
  removeFile 7 [file_png; file_txt] = [file_png; file_txt]
  /\ removeFile 0 [file_png; file_txt] = [file_txt].
Proof.
  split.
  - apply (proj1 (removeFile_total_safe 7 [file_png; file_txt])). simpl. lia.
  - apply (proj2 (removeFile_total_safe 0 [file_png; file_txt])). simpl. lia.
Defined.

(** ** PreviewManager *)

Module PreviewFacts.
Import Preview.

Lemma consistent_initial : consistent initial.
Proof. repeat split. intros p H. discriminate. Qed.

Lemma consistent_step cb e : consistent cb -> consistent (step cb e).
Proof.
  destruct cb as [[pf cap m] [st nx rv]]. unfold consistent. simpl.
  intros (Hcap & Hlt & Hst). subst cap.
  destruct m; [|repeat split; assumption].
  destruct e as [file| |]; simpl.
  - unfold commit; simpl. destruct pf as [p|]; simpl.
    + specialize (Hlt p eq_refl).
      destruct (Nat.eqb_spec nx (url p)) as [E|E]; [lia|]. simpl.
      subst st. simpl. rewrite Nat.eqb_refl. simpl.
      destruct (Nat.eqb_spec nx (url p)) as [E'|_]; [lia|]. simpl.
      repeat split. intros q [= <-]. simpl. lia.
    + subst st. simpl. repeat split. intros q [= <-]. simpl. lia.
  - destruct pf as [p|]; simpl.
    + subst st. unfold commit; simpl. rewrite Nat.eqb_refl. simpl.
      repeat split. intros q H. discriminate.
    + unfold commit; simpl. repeat split; assumption.
  - unfold cleanup; simpl. destruct pf as [p|]; simpl.
    + subst st. simpl. rewrite Nat.eqb_refl. simpl.
      repeat split. exact Hlt.
    + repeat split; assumption.
Qed.

Lemma consistent_exec tr cb : consistent cb -> consistent (exec cb tr).
Proof.
  revert cb. induction tr as [|e tr IH]; intros cb H; [exact H|].
  simpl. apply IH, consistent_step, H.
Qed.

(** At most one preview URL is live, whatever the user did. *)
Lemma one_live (tr : list Event) : (length (live (exec initial tr)) <= 1)%nat.
Proof.
  pose proof (consistent_exec tr initial consistent_initial) as H.
  unfold live. destruct (exec initial tr) as [c b]. simpl.
  destruct H as (_ & _ & ->).
  destruct (mounted c); [destruct (previewFile c)|]; simpl; lia.
Qed.

(** Opening a second preview revokes the first when the new one is
    installed. *)
Example open_replaces :
  exec initial [Open file_png; Open file_pdf]
  = ({| previewFile := Some {| url := 1; type := pdf; name := lit "b.pdf" |};
        captured := Some {| url := 1; type := pdf; name := lit "b.pdf" |};
        mounted := true |},
     {| store := [1%nat]; next := 2; revocations := [0%nat] |}).
Proof. reflexivity. Qed.

Lemma mounted_exec_unmount tr cb :
  mounted (fst (exec cb (tr ++ [Unmount]))) = false.
Proof.
  unfold exec. rewrite fold_left_app. simpl.
  destruct (fold_left step tr cb) as [c b]. simpl.
  destruct (mounted c) eqn:E; simpl; [reflexivity|exact E].
Qed.

(** Tearing the component down leaves no URL live. *)
Lemma teardown_releases (tr : list Event) :
  live (exec initial (tr ++ [Unmount])) = [].
Proof.
  pose proof (consistent_exec (tr ++ [Unmount]) initial consistent_initial) as H.
  pose proof (mounted_exec_unmount tr initial) as Hm.
  unfold live. destruct (exec initial (tr ++ [Unmount])) as [c b]. simpl in *.
  destruct H as (_ & _ & ->). rewrite Hm. reflexivity.
Qed.

(** C3 at its failing input: closing a preview hands its URL to
    [URL.revokeObjectURL] twice, once in [closePreview] and once more in
    the cleanup of the effect that the state change triggers. *)
Theorem close_revokes_twice :
  revocations (snd (exec initial [Open file_png; Close])) = [0%nat; 0%nat]
  /\ releases 0 (exec initial [Open file_png; Close]) = 2%nat.
Proof. split; reflexivity. Qed.

End PreviewFacts.

(** ** RequestPipeline: one invocation *)

Section PipelineFacts.

Variable promptText : ExamConfig -> nat -> jsstring.

Lemma settle_reads_Done rs s : settle_reads rs s Done = (s, Done).
Proof. destruct rs; reflexivity. Qed.

Lemma settle_reads_AwaitResponse rs s parts :
  settle_reads rs s (AwaitResponse parts) = (s, AwaitResponse parts).
Proof. destruct rs; reflexivity. Qed.

Lemma handleGenerate_rejected s :
  topic (config s) = [] -> files s = [] ->
  handleGenerate promptText s = (setError (Some validation_message) s, Done).
Proof. intros Ht Hf. unfold handleGenerate. rewrite Ht, Hf. reflexivity. Qed.

Lemma run_handleGenerate_rejected env s :
  topic (config s) = [] -> files s = [] ->
  run_handleGenerate promptText env s
  = (setError (Some validation_message) s, Done).
Proof.
  intros Ht Hf. unfold run_handleGenerate.
  rewrite (handleGenerate_rejected s Ht Hf), settle_reads_Done. reflexivity.
Qed.

Lemma validation_message_visible : validation_message <> [].
Proof. vm_compute. discriminate. Qed.

Lemma message_or_default_visible err : message_or_default err <> [].
Proof.
  unfold message_or_default. destruct (message err) as [[|c m]|]; simpl;
    try discriminate; vm_compute; discriminate.
Qed.

(** C5: with an empty topic and no attachment, a submission returns at the
    guard: no request is sent, the validation message is shown, the busy
    flag is not touched and nothing is left in flight. *)
Theorem empty_submission_rejected (env : Env) (s : State) :
  topic (config s) = [] -> files s = [] ->
  let r := run_handleGenerate promptText env s in
  snd r = Done
  /\ calls (fst r) = calls s
  /\ error (fst r) = Some validation_message
  /\ validation_message <> []
  /\ isLoading (fst r) = isLoading s.
Proof.
  intros Ht Hf r. subst r. rewrite (run_handleGenerate_rejected env s Ht Hf).
  simpl. repeat split. apply validation_message_visible.
Qed.

(** C9: a submission stopped by the guard leaves the published text as it
    was. *)
Theorem rejected_submission_keeps_output (env : Env) (s : State) :
  topic (config s) = [] -> files s = [] ->
  generatedCode (fst (run_handleGenerate promptText env s)) = generatedCode s.
Proof.
  intros Ht Hf. rewrite (run_handleGenerate_rejected env s Ht Hf). reflexivity.
Qed.

(** While conversions resolve and files are left, the invocation moves to
    the next file and the state stays as it is. *)
Lemma settle_reads_resolved ds :
  forall done f0 rest0 file rest parts rs s,
  f0 :: rest0 = done ++ file :: rest -> length done = length ds ->
  settle_reads (map Resolved ds ++ rs) s (AwaitFile f0 rest0 parts)
  = settle_reads rs s
      (AwaitFile file rest (parts ++ zip_with inline_part done ds)).
Proof.
  induction ds as [|d ds IH]; intros done f0 rest0 file rest parts rs s E L.
  - destruct done; [|discriminate]. simpl in E. injection E as -> ->.
    simpl. rewrite app_nil_r. reflexivity.
  - destruct done as [|f done]; [discriminate|].
    simpl in E. injection E as <- ->. simpl in L.
    destruct (done ++ file :: rest) as [|f1 rest1] eqn:E1;
      [destruct done; discriminate|].
    simpl. rewrite (IH done f1 rest1 file rest) by (auto; lia).
    rewrite <- app_assoc. reflexivity.
Qed.

(** With every conversion resolved the loop ends and the request is sent. *)
Lemma settle_reads_all fs :
  forall f0 ds parts rs s,
  length ds = length (f0 :: fs) ->
  settle_reads (map Resolved ds ++ rs) s (AwaitFile f0 fs parts)
  = (generateContent (parts ++ zip_with inline_part (f0 :: fs) ds) s,
     AwaitResponse (parts ++ zip_with inline_part (f0 :: fs) ds)).
Proof.
  induction fs as [|f1 fs IH]; intros f0 ds parts rs s L.
  - destruct ds as [|d [|d' ds]]; try discriminate.
    simpl. apply settle_reads_AwaitResponse.
  - destruct ds as [|d ds]; [discriminate|]. simpl in L.
    simpl. rewrite IH by (simpl; lia). rewrite <- app_assoc. reflexivity.
Qed.

(** The scenario of the spec: a topic, no attachment, a fenced answer. *)
Example run_fractions :
  run_handleGenerate promptText env_doc state_fractions
  = ({| config := config state_fractions; files := [];
        generatedCode := lit "DOC"; isLoading := false; error := None;
        calls := [[TextPart (promptText (config state_fractions) 0)]] |},
     Done).
Proof. reflexivity. Qed.

Lemma handleGenerate_accepted s f0 fs :
  files s = f0 :: fs ->
  handleGenerate promptText s
  = (setGeneratedCode [] (setError None (setIsLoading true s)),
     AwaitFile f0 fs [TextPart (promptText (config s) (length (files s)))]).
Proof.
  intros Hf. unfold handleGenerate. rewrite Hf. simpl.
  rewrite andb_false_r. reflexivity.
Qed.

(** C6: when a conversion is rejected, the invocation ends in the [catch]
    and [finally] blocks: no request has been sent, whatever was converted
    before; a message is shown and the busy flag is cleared. *)
Theorem encoding_failure_sends_nothing (env : Env) (s : State)
    (ds : list jsstring) (err : JsError) (later : list (Settled jsstring)) :
  reads env = map Resolved ds ++ Rejected err :: later ->
  (length ds < length (files s))%nat ->
  let r := run_handleGenerate promptText env s in
  snd r = Done
  /\ calls (fst r) = calls s
  /\ isLoading (fst r) = false
  /\ error (fst r) = Some (message_or_default err)
  /\ message_or_default err <> []
  /\ generatedCode (fst r) = [].
Proof.
  intros Hr Hl r. subst r. unfold run_handleGenerate.
  destruct (files s) as [|f0 fs] eqn:Hf; [simpl in Hl; lia|].
  rewrite (handleGenerate_accepted s f0 fs Hf), Hr.
  assert (exists file rest, f0 :: fs = take (length ds) (f0 :: fs) ++ file :: rest)
    as (file & rest & E).
  { destruct (drop (length ds) (f0 :: fs)) as [|file rest] eqn:Ed.
    - apply (f_equal length) in Ed. rewrite length_drop in Ed. simpl in *. lia.
    - exists file, rest. rewrite <- Ed. symmetry. apply take_drop. }
  rewrite (settle_reads_resolved ds _ f0 fs file rest _ _ _ E)
    by (rewrite length_take; lia).
  simpl. rewrite settle_reads_Done. simpl.
  repeat split. apply message_or_default_visible.
Qed.

(** Run on its own, an invocation whose conversions all resolve sends
    exactly one request: the instruction text followed by one part per
    attachment, in the order of the attachment list. *)
Lemma run_sends_one_request (env : Env) (s : State)
    (ds : list jsstring) (later : list (Settled jsstring)) :
  files s <> [] ->
  reads env = map Resolved ds ++ later ->
  length ds = length (files s) ->
  calls (fst (run_handleGenerate promptText env s))
  = calls s
    ++ [TextPart (promptText (config s) (length (files s)))
        :: zip_with inline_part (files s) ds].
Proof.
  intros Hne Hr Hl. unfold run_handleGenerate.
  destruct (files s) as [|f0 fs] eqn:Hf; [congruence|].
  rewrite (handleGenerate_accepted s f0 fs Hf), Hr.
  rewrite settle_reads_all by exact Hl.
  simpl. rewrite Hf. destruct (reply env _) as [response|e]; reflexivity.
Qed.

End PipelineFacts.

(** ** RequestPipeline: the component as a transition system *)

Section MachineFacts.

Variable promptText : ExamConfig -> nat -> jsstring.

Lemma count_active_app l1 l2 :
  count_active (l1 ++ l2) = (count_active l1 + count_active l2)%nat.
Proof. unfold count_active. rewrite List.filter_app, length_app. reflexivity. Qed.

Lemma count_active_insert (l : list Susp) :
  forall i k k', l !! i = Some k ->
  (count_active (<[i := k']> l) + (if active k then 1 else 0)
   = count_active l + (if active k' then 1 else 0))%nat.
Proof.
  induction l as [|x l IH]; intros i k k' H; [discriminate|].
  destruct i as [|i]; simpl in H.
  - injection H as ->. unfold count_active. simpl.
    destruct (active k), (active k'); simpl; lia.
  - specialize (IH i k k' H). unfold count_active in *. simpl.
    destruct (active x); simpl; lia.
Qed.

(** What resuming an invocation can do to it and to the busy flag. *)
Lemma resume_cases k o s :
  resume k o s = (s, k)
  \/ (active k = true /\ active (snd (resume k o s)) = true
      /\ isLoading (fst (resume k o s)) = isLoading s)
  \/ (active k = true /\ snd (resume k o s) = Done
      /\ isLoading (fst (resume k o s)) = false).
Proof.
  destruct k as [file rest parts|parts|], o as [[r|e]|[r|e]]; simpl; auto.
  destruct rest; simpl; auto.
Qed.

Lemma handleGenerate_idle s :
  isLoading s = false ->
  count_active [snd (handleGenerate promptText s)]
  = if isLoading (fst (handleGenerate promptText s)) then 1%nat else 0%nat.
Proof.
  intros H. unfold handleGenerate.
  destruct (is_empty (topic (config s)) && (length (files s) =? 0)%nat);
    simpl; [rewrite H; reflexivity|].
  destruct (files s); reflexivity.
Qed.

Lemma flag_tracks_step w e :
  from_ui e = true ->
  flag_tracks_invocation w -> flag_tracks_invocation (step promptText w e).
Proof.
  unfold flag_tracks_invocation, episodes.
  intros Hui H. destruct e; try discriminate; simpl; try exact H.
  - destruct (isLoading (state w)) eqn:Hl; [rewrite Hl; exact H|].
    unfold invoke. pose proof (handleGenerate_idle (state w) Hl) as Hk.
    destruct (handleGenerate promptText (state w)) as [s k]. simpl in *.
    rewrite count_active_app, H, Hk. reflexivity.
  - destruct (pending w !! i) as [k|] eqn:Hp; [|exact H].
    pose proof (count_active_insert (pending w) i k
                  (snd (resume k o (state w))) Hp) as Hc.
    destruct (resume_cases k o (state w)) as [E|[(Ha & Ha' & Hl)|(Ha & Hd & Hl)]].
    + rewrite E. simpl. rewrite list_insert_id by exact Hp. exact H.
    + destruct (resume k o (state w)) as [s k']. simpl in *.
      rewrite Ha, Ha' in Hc. rewrite Hl. lia.
    + destruct (resume k o (state w)) as [s k']. simpl in *. subst k'.
      rewrite Ha in Hc. simpl in Hc. rewrite Hl.
      destruct (isLoading (state w)); lia.
Qed.

Lemma flag_tracks_exec tr :
  forall w, forallb from_ui tr = true ->
  flag_tracks_invocation w -> flag_tracks_invocation (exec promptText w tr).
Proof.
  induction tr as [|e tr IH]; intros w Hui H; [exact H|].
  simpl in Hui. apply andb_true_iff in Hui as [He Htr].
  simpl. apply IH; [exact Htr|]. apply flag_tracks_step; assumption.
Qed.

(** C4, amended: through the rendered interface at most one invocation of
    [handleGenerate] is in flight, exactly one while the busy flag is set,
    and a click on the disabled button changes nothing and sends
    nothing. *)
Theorem busy_button_ignores_clicks (tr : list Event) :
  forallb from_ui tr = true ->
  let w := exec promptText initial_world tr in
  (episodes w <= 1)%nat
  /\ (isLoading (state w) = true <-> episodes w = 1%nat)
  /\ (isLoading (state w) = true -> step promptText w ClickGenerate = w).
Proof.
  intros Hui w.
  assert (flag_tracks_invocation w) as H
    by (apply flag_tracks_exec; [exact Hui|reflexivity]).
  unfold flag_tracks_invocation in H. rewrite H.
  destruct (isLoading (state w)) eqn:Hl; simpl; rewrite ?Hl;
    repeat split; auto; try lia; discriminate.
Qed.

(** *** The request of an invocation under any interleaving *)

(** The log of requests only grows. *)
Lemma calls_step_grows w e :
  exists more, calls (state (step promptText w e)) = calls (state w) ++ more.
Proof.
  assert (exists more,
            calls (state (invoke promptText w)) = calls (state w) ++ more) as Hi.
  { unfold invoke, handleGenerate.
    destruct (is_empty (topic (config (state w)))
              && (length (files (state w)) =? 0)%nat); simpl.
    - exists []. rewrite app_nil_r. reflexivity.
    - destruct (files (state w)); simpl; eauto.
      exists []. rewrite app_nil_r. reflexivity. }
  destruct e; simpl; try (exists []; rewrite app_nil_r; reflexivity);
    try exact Hi.
  - destruct (isLoading (state w)); [|exact Hi].
    exists []. rewrite app_nil_r. reflexivity.
  - destruct (pending w !! i) as [k|];
      [|exists []; rewrite app_nil_r; reflexivity].
    destruct k as [file rest parts|parts|], o as [[r|err]|[r|err]]; simpl;
      try (exists []; rewrite app_nil_r; reflexivity).
    destruct rest; simpl; eauto.
    exists []. rewrite app_nil_r. reflexivity.
Qed.

Lemma calls_exec_grows tr :
  forall w,
  exists more, calls (state (exec promptText w tr)) = calls (state w) ++ more.
Proof.
  induction tr as [|e tr IH]; intros w; simpl.
  - exists []. rewrite app_nil_r. reflexivity.
  - destruct (IH (step promptText w e)) as [m2 E2].
    destruct (calls_step_grows w e) as [m1 E1].
    exists (m1 ++ m2). rewrite E2, E1, app_assoc. reflexivity.
Qed.

(** An event that is not a delivery to invocation [i] leaves it where it
    is. *)
Lemma step_other w e i k :
  pending w !! i = Some k -> delivered i [e] = [] ->
  pending (step promptText w e) !! i = Some k.
Proof.
  intros Hp He.
  assert (pending (invoke promptText w) !! i = Some k) as Hi.
  { unfold invoke. destruct (handleGenerate promptText (state w)) as [s k0].
    simpl. rewrite lookup_app_l; [exact Hp|].
    apply lookup_lt_is_Some. eauto. }
  destruct e; simpl in *; try exact Hp; try exact Hi.
  - destruct (isLoading (state w)); [exact Hp|exact Hi].
  - destruct (Nat.eqb_spec i0 i) as [->|Hne]; [discriminate|].
    destruct (pending w !! i0) as [k0|]; [|exact Hp].
    destruct (resume k0 o (state w)) as [s k']. simpl.
    rewrite list_lookup_insert_ne by exact Hne. exact Hp.
Qed.

Lemma undelivered_exec tr :
  forall w i k,
  pending w !! i = Some k -> delivered i tr = [] ->
  pending (exec promptText w tr) !! i = Some k.
Proof.
  induction tr as [|e tr IH]; intros w i k Hp Hd; [exact Hp|].
  assert (delivered i [e] = [] /\ delivered i tr = []) as [He Htr].
  { destruct e; simpl in *; auto.
    destruct (Nat.eqb i0 i); [discriminate|auto]. }
  simpl. apply IH; [|exact Htr]. apply step_other; assumption.
Qed.

(** An invocation that waits for a file, and to which the trace delivers
    one resolved conversion per file left, ends up waiting for the reply to
    the request made of the parts it had, followed by one part per file
    left, in order. *)
Lemma deliveries_reach_request tr :
  forall w i f rest parts ds,
  pending w !! i = Some (AwaitFile f rest parts) ->
  delivered i tr = map (fun d => FileRead (Resolved d)) ds ->
  length ds = S (length rest) ->
  pending (exec promptText w tr) !! i
  = Some (AwaitResponse (parts ++ zip_with inline_part (f :: rest) ds))
  /\ exists before after,
      calls (state (exec promptText w tr))
      = calls (state w) ++ before
        ++ (parts ++ zip_with inline_part (f :: rest) ds) :: after.
Proof.
  induction tr as [|e tr IH]; intros w i f rest parts ds Hp Hd Hl.
  { destruct ds; simpl in *; [lia|discriminate]. }
  assert (delivered i [e] = [] ->
          pending (exec promptText w (e :: tr)) !! i
          = Some (AwaitResponse (parts ++ zip_with inline_part (f :: rest) ds))
          /\ exists before after,
              calls (state (exec promptText w (e :: tr)))
              = calls (state w) ++ before
                ++ (parts ++ zip_with inline_part (f :: rest) ds) :: after)
    as Hother.
  { intros He.
    assert (delivered i (e :: tr) = delivered i tr) as E.
    { destruct e; simpl in *; auto. destruct (Nat.eqb i0 i); [discriminate|auto]. }
    rewrite E in Hd.
    destruct (IH (step promptText w e) i f rest parts ds
                (step_other w e i _ Hp He) Hd Hl) as (H1 & b & a & H2).
    split; [exact H1|].
    destruct (calls_step_grows w e) as [m Hm].
    exists (m ++ b), a. simpl. rewrite H2, Hm, <- !app_assoc. reflexivity. }
  destruct e; try (apply Hother; reflexivity).
  simpl in Hd. destruct (Nat.eqb_spec i0 i) as [->|Hne];
    [|apply Hother; simpl; destruct (Nat.eqb_spec i0 i); congruence].
  clear Hother. destruct ds as [|d ds]; [discriminate|].
  simpl in Hd. injection Hd as -> Hd. simpl in Hl.
  assert (i < length (pending w))%nat as Hi
    by (apply lookup_lt_is_Some; eauto).
  simpl exec. rewrite Hp. simpl resume.
  destruct rest as [|f1 rest1]; simpl for_files.
  - destruct ds; [|simpl in Hl; lia]. simpl zip_with.
    split.
    + apply undelivered_exec; [|exact Hd]. simpl.
      apply list_lookup_insert_eq. exact Hi.
    + destruct (calls_exec_grows tr
        {| state := generateContent (parts ++ [inline_part f d]) (state w);
           pending := <[i := AwaitResponse (parts ++ [inline_part f d])]>
                        (pending w) |}) as [m Hm].
      exists [], m. rewrite Hm. simpl. rewrite <- app_assoc. reflexivity.
  - destruct (IH {| state := state w;
                    pending := <[i := AwaitFile f1 rest1
                                         (parts ++ [inline_part f d])]>
                                 (pending w) |}
                i f1 rest1 (parts ++ [inline_part f d]) ds) as (H1 & b & a & H2).
    + simpl. apply list_lookup_insert_eq. exact Hi.
    + exact Hd.
    + simpl in Hl. lia.
    + simpl zip_with. rewrite <- app_assoc in H1, H2. simpl in *.
      split; [exact H1|]. exists b, a. exact H2.
Qed.

(** C7: an invocation started with a non-empty attachment list, whose
    conversions all resolve, sends the instruction text followed by one
    part per attachment, in the order of the list, each pairing the file's
    type with the payload of that file's own conversion.  This holds for
    every trace: whenever the conversions settle, and whatever edits,
    removals, additions or other invocations come in between. *)
Theorem request_parts_in_attachment_order (w : World) (tr : list Event)
    (ds : list jsstring) :
  files (state w) <> [] ->
  delivered (length (pending w)) tr = map (fun d => FileRead (Resolved d)) ds ->
  length ds = length (files (state w)) ->
  let request :=
    TextPart (promptText (config (state w)) (length (files (state w))))
    :: zip_with inline_part (files (state w)) ds in
  let w' := exec promptText (invoke promptText w) tr in
  pending w' !! length (pending w) = Some (AwaitResponse request)
  /\ exists before after,
      calls (state w') = calls (state w) ++ before ++ request :: after.
Proof.
  intros Hne Hd Hl request w'. subst request w'.
  destruct (files (state w)) as [|f0 fs] eqn:Hf; [congruence|].
  pose proof (handleGenerate_accepted promptText (state w) f0 fs Hf) as Hg.
  rewrite Hf in Hg.
  destruct (deliveries_reach_request tr (invoke promptText w)
              (length (pending w)) f0 fs
              [TextPart (promptText (config (state w)) (length (f0 :: fs)))] ds)
    as (H1 & b & a & H2).
  - unfold invoke. rewrite Hg. simpl.
    rewrite lookup_app_r by lia. rewrite Nat.sub_diag. reflexivity.
  - exact Hd.
  - exact Hl.
  - split; [exact H1|]. exists b, a. rewrite H2.
    unfold invoke. rewrite Hg. reflexivity.
Qed.

End MachineFacts.

(** C4, as stated, fails: [handleGenerate] does not look at the busy flag.
    Called while a request is in flight, it sends a second request and a
    second invocation is in flight. *)
Lemma handleGenerate_has_no_busy_guard :
  let w := exec sample_prompt initial_world
             [ChangeTopic (lit "x"); ClickGenerate] in
  let w' := step sample_prompt w CallHandleGenerate in
  isLoading (state w) = true
  /\ length (calls (state w)) = 1%nat
  /\ episodes w = 1%nat
  /\ length (calls (state w')) = 2%nat
  /\ episodes w' = 2%nat
  /\ w' <> w.
Proof. repeat split. vm_compute. discriminate. Qed.

(** ** The theorems at concrete inputs *)

Lemma empty_submission_rejected_witness :
  let r := run_handleGenerate sample_prompt env_ok state_empty_form in
  snd r = Done
  /\ calls (fst r) = calls state_empty_form
  /\ error (fst r) = Some validation_message
  /\ validation_message <> []
  /\ isLoading (fst r) = isLoading state_empty_form.
Proof.
  apply (empty_submission_rejected sample_prompt env_ok state_empty_form);
    reflexivity.
Defined.

Lemma rejected_submission_keeps_output_witness :
  generatedCode (fst (run_handleGenerate sample_prompt env_ok state_empty_form))
  = lit "OLD".
Proof.
  apply (rejected_submission_keeps_output sample_prompt env_ok state_empty_form);
    reflexivity.
Defined.

Lemma encoding_failure_sends_nothing_witness :
  let r := run_handleGenerate sample_prompt env_second_read_fails
             state_two_files in
  snd r = Done
  /\ calls (fst r) = calls state_two_files
  /\ isLoading (fst r) = false
  /\ error (fst r) = Some (message_or_default {| message := None |})
  /\ message_or_default {| message := None |} <> []
  /\ generatedCode (fst r) = [].
Proof.
  apply (encoding_failure_sends_nothing sample_prompt env_second_read_fails
           state_two_files [lit "data:image/png;base64,iVA="]
           {| message := None |} []).
  - reflexivity.
  - simpl. lia.
Defined.

Lemma request_parts_in_attachment_order_witness :
  let w := {| state := state_two_files; pending := [] |} in
  let tr := [Settle 0 (FileRead (Resolved (lit "data:image/png;base64,iVA=")));
             RemoveFile 0;
             ChangeTopic (lit "Geometry");
             Settle 0 (FileRead (Resolved (lit "data:application/pdf;base64,JVA=")))] in
  let request :=
    [TextPart (lit "PROMPT");
     InlineData (lit "image/png") (Some (lit "iVA="));
     InlineData (lit "application/pdf") (Some (lit "JVA="))] in
  let w' := exec sample_prompt (invoke sample_prompt w) tr in
  pending w' !! 0%nat = Some (AwaitResponse request)
  /\ exists before after,
      calls (state w') = calls (state w) ++ before ++ request :: after.
Proof.
  apply (request_parts_in_attachment_order sample_prompt
           {| state := state_two_files; pending := [] |}
           [Settle 0 (FileRead (Resolved (lit "data:image/png;base64,iVA=")));
            RemoveFile 0;
            ChangeTopic (lit "Geometry");
            Settle 0 (FileRead (Resolved (lit "data:application/pdf;base64,JVA=")))]
           [lit "data:image/png;base64,iVA=";
            lit "data:application/pdf;base64,JVA="]).
  - discriminate.
  - reflexivity.
  - reflexivity.
Defined.

Lemma busy_button_ignores_clicks_witness :
  let w := exec sample_prompt initial_world
             [ChangeTopic (lit "x"); ClickGenerate; ClickGenerate] in
  (episodes w <= 1)%nat
  /\ (isLoading (state w) = true <-> episodes w = 1%nat)
  /\ (isLoading (state w) = true -> step sample_prompt w ClickGenerate = w).
Proof.
  apply (busy_button_ignores_clicks sample_prompt
           [ChangeTopic (lit "x"); ClickGenerate; ClickGenerate]).
  reflexivity.
Defined.

(** * Further properties of the component *)

(** ** String primitives *)

Lemma code_unit_eqb_eq a b : code_unit_eqb a b = true <-> a = b.
Proof. unfold code_unit_eqb. apply N.eqb_eq. Qed.

Lemma startsWith_prefix p r : startsWith (p ++ r) p = true.
Proof.
  induction p as [|a p IH]; [reflexivity|].
  simpl. unfold code_unit_eqb at 1. rewrite N.eqb_refl. exact IH.
Qed.

Lemma startsWith_split s p : startsWith s p = true -> exists r, s = p ++ r.
Proof.
  revert s. induction p as [|a p IH]; intros s H; [exists s; reflexivity|].
  destruct s as [|b s]; simpl in H; [discriminate|].
  apply andb_true_iff in H as [Hab H]. apply code_unit_eqb_eq in Hab as ->.
  destruct (IH s H) as [r ->]. exists r. reflexivity.
Qed.

Lemma strict_eq_eq a b : strict_eq a b = true <-> a = b.
Proof.
  revert b. induction a as [|x a IH]; intros [|y b]; simpl;
    try (split; [discriminate|discriminate]); [tauto|].
  rewrite andb_true_iff, code_unit_eqb_eq, IH.
  split; [intros [-> ->]; reflexivity|intros [= -> ->]; auto].
Qed.

Lemma startsWith_common p s q : startsWith (p ++ s) (p ++ q) = startsWith s q.
Proof.
  induction p as [|a p IH]; [reflexivity|].
  simpl. unfold code_unit_eqb at 1. rewrite N.eqb_refl. exact IH.
Qed.

Lemma endsWith_suffix b p : endsWith (b ++ p) p = true.
Proof. unfold endsWith. rewrite rev_app_distr. apply startsWith_prefix. Qed.

Lemma replace_at_start_prefix p r : replace_at_start p (p ++ r) = r.
Proof.
  unfold replace_at_start. rewrite startsWith_prefix. apply drop_app_length.
Qed.

Lemma replace_at_end_suffix b p : replace_at_end p (b ++ p) = b.
Proof.
  unfold replace_at_end. rewrite endsWith_suffix, length_app.
  replace (length b + length p - length p)%nat with (length b) by lia.
  apply take_app_length.
Qed.

Lemma replace_at_start_within p s : exists a, s = a ++ replace_at_start p s.
Proof.
  unfold replace_at_start. destruct (startsWith s p).
  - exists (take (length p) s). symmetry. apply take_drop.
  - exists []. reflexivity.
Qed.

Lemma replace_at_end_within p s : exists b, s = replace_at_end p s ++ b.
Proof.
  unfold replace_at_end. destruct (endsWith s p).
  - exists (drop (length s - length p) s). symmetry. apply take_drop.
  - exists []. symmetry. apply app_nil_r.
Qed.

Lemma trim_within s : exists a b, s = a ++ trim s ++ b.
Proof.
  destruct (trimStart_suffix s) as [a Ha].
  destruct (trimEnd_prefix (trimStart s)) as [b Hb].
  exists a, b. unfold trim. rewrite <- Hb. exact Ha.
Qed.

Lemma trim_no_trail s : no_lead (rev (trim s)).
Proof.
  unfold trim, trimEnd. rewrite rev_involutive. apply trimStart_no_lead.
Qed.

Lemma trim_fixed s : no_lead s -> no_lead (rev s) -> trim s = s.
Proof.
  intros H1 H2. unfold trim, trimEnd.
  rewrite (trimStart_fixed s H1), (trimStart_fixed (rev s) H2).
  apply rev_involutive.
Qed.

(** ** Output sanitizer, continued *)

(** A reply wrapped in a [latex] fence is unwrapped and trimmed, whatever
    its body. *)
Theorem sanitize_unwraps_latex_fence (body : jsstring) :
  sanitize (fence_latex ++ body ++ fence) = trim body.
Proof.
  unfold sanitize. rewrite startsWith_prefix, replace_at_start_prefix,
    replace_at_end_suffix. reflexivity.
Qed.

Lemma fence_not_latex (body : jsstring) :
  startsWith body (lit "latex") = false ->
  startsWith (body ++ fence) (lit "latex") = false.
Proof.
  intros H.
  destruct body as [|c1 [|c2 [|c3 [|c4 [|c5 r]]]]];
    try (exact H);
    vm_compute;
    repeat match goal with
           | |- context [N.eqb ?a ?b] => destruct (N.eqb a b)
           | |- context [Pos.eqb ?a ?b] => destruct (Pos.eqb a b)
           end; try reflexivity.
Qed.

(** A reply wrapped in a bare fence is unwrapped and trimmed, provided its
    body does not begin with [latex] (the opening marker would then be read
    as the annotated one, and the word would go with it). *)
Theorem sanitize_unwraps_bare_fence (body : jsstring) :
  startsWith body (lit "latex") = false ->
  sanitize (fence ++ body ++ fence) = trim body.
Proof.
  intros H. unfold sanitize.
  change fence_latex with (fence ++ lit "latex").
  rewrite startsWith_common, (fence_not_latex body H).
  rewrite startsWith_prefix, replace_at_start_prefix, replace_at_end_suffix.
  reflexivity.
Qed.

Lemma sanitize_unwraps_bare_fence_witness :
  sanitize (fence ++ ([10%N] ++ lit "DOC" ++ [10%N]) ++ fence) = lit "DOC".
Proof.
  apply (sanitize_unwraps_bare_fence ([10%N] ++ lit "DOC" ++ [10%N])).
  reflexivity.
Defined.

(** The sanitizer only removes text at the two ends: its result is a
    contiguous piece of the reply. *)
Theorem sanitize_keeps_a_piece (x : jsstring) :
  exists before after, x = before ++ sanitize x ++ after.
Proof.
  assert (forall p q y, exists a b,
            y = a ++ replace_at_end q (replace_at_start p y) ++ b) as Hstrip.
  { intros p q y. destruct (replace_at_start_within p y) as [a Ha].
    destruct (replace_at_end_within q (replace_at_start p y)) as [b Hb].
    exists a, b. rewrite <- Hb. exact Ha. }
  assert (exists a b y, x = a ++ y ++ b /\ sanitize x = trim y)
    as (a & b & y & Hx & Hs).
  { unfold sanitize. destruct (startsWith x fence_latex).
    - destruct (Hstrip fence_latex fence x) as (a & b & E). eauto.
    - destruct (startsWith x fence).
      + destruct (Hstrip fence fence x) as (a & b & E). eauto.
      + exists [], [], x. rewrite app_nil_r. auto. }
  destruct (trim_within y) as (a' & b' & Hy).
  exists (a ++ a'), (b' ++ b). rewrite Hs, Hx. rewrite Hy at 1.
  rewrite <- !app_assoc. reflexivity.
Qed.

(** The texts the sanitizer leaves as they are: those with no white space
    at either end that do not begin with the fence marker. *)
Theorem sanitize_fixed_points (x : jsstring) :
  sanitize x = x
  <-> no_lead x /\ no_lead (rev x) /\ startsWith x fence = false.
Proof.
  split.
  - intros H. repeat split.
    + rewrite <- H. unfold sanitize. apply trim_no_lead.
    + rewrite <- H. unfold sanitize. apply trim_no_trail.
    + destruct (startsWith x fence) eqn:E; [|reflexivity].
      apply sanitize_fenced_shorter in E. rewrite H in E. lia.
  - intros (H1 & H2 & H3). rewrite (sanitize_unfenced x H3).
    apply trim_fixed; assumption.
Qed.

Lemma sanitize_fixed_points_witness :
  sanitize (lit "\end{document}") = lit "\end{document}".
Proof.
  apply (proj2 (sanitize_fixed_points (lit "\end{document}"))).
  repeat split.
Defined.

Lemma sanitize_length x : (length (sanitize x) <= length x)%nat.
Proof.
  assert (forall p y, (length (replace_at_start p y) <= length y)%nat) as Hs.
  { intros p y. destruct (replace_at_start_within p y) as [a E].
    rewrite E at 2. rewrite length_app. lia. }
  unfold sanitize.
  destruct (startsWith x fence_latex); [|destruct (startsWith x fence)].
  - pose proof (trim_length (replace_at_end fence (replace_at_start fence_latex x))).
    pose proof (replace_at_end_length fence (replace_at_start fence_latex x)).
    pose proof (Hs fence_latex x). lia.
  - pose proof (trim_length (replace_at_end fence (replace_at_start fence x))).
    pose proof (replace_at_end_length fence (replace_at_start fence x)).
    pose proof (Hs fence x). lia.
  - apply trim_length.
Qed.

(** What is published never begins or ends with white space and is never
    longer than the reply. *)
Theorem sanitize_result_trimmed (x : jsstring) :
  no_lead (sanitize x) /\ no_lead (rev (sanitize x))
  /\ (length (sanitize x) <= length x)%nat.
Proof.
  repeat split.
  - unfold sanitize. apply trim_no_lead.
  - unfold sanitize. apply trim_no_trail.
  - apply sanitize_length.
Qed.

(** ** Numbers typed into the form *)

Lemma decimal_digits_value fuel :
  forall n acc, 0 <= n < 10 ^ Z.of_nat fuel ->
  fold_left (fun a d => a * 10 + d) (decimal_digits fuel n acc) 0
  = fold_left (fun a d => a * 10 + d) acc n.
Proof.
  induction fuel as [|fuel IH]; intros n acc H.
  - simpl in H. assert (n = 0) as -> by lia. reflexivity.
  - simpl decimal_digits. destruct (Z.ltb_spec n 10) as [Hlt|Hge].
    + simpl. reflexivity.
    + rewrite IH.
      * simpl. f_equal. pose proof (Z.div_mod n 10). lia.
      * rewrite Nat2Z.inj_succ, Z.pow_succ_r in H by lia.
        split; [apply Z.div_pos; lia|].
        apply Z.div_lt_upper_bound; lia.
Qed.

Lemma decimal_digits_digits fuel :
  forall n acc, 0 <= n -> Forall is_digit acc ->
  Forall is_digit (decimal_digits (S fuel) n acc).
Proof.
  induction fuel as [|fuel IH]; intros n acc Hn Hacc; simpl.
  - destruct (Z.ltb_spec n 10); [constructor; [split; lia|exact Hacc]|].
    constructor; [|exact Hacc].
    pose proof (Z.mod_pos_bound n 10). unfold is_digit. lia.
  - destruct (Z.ltb_spec n 10); [constructor; [split; lia|exact Hacc]|].
    apply IH; [apply Z.div_pos; lia|].
    constructor; [|exact Hacc].
    pose proof (Z.mod_pos_bound n 10). unfold is_digit. lia.
Qed.

Lemma decimal_digits_nonempty fuel :
  forall n acc, decimal_digits (S fuel) n acc <> [].
Proof.
  induction fuel as [|fuel IH]; intros n acc; simpl.
  - destruct (n <? 10); discriminate.
  - destruct (n <? 10); [discriminate|]. apply IH.
Qed.

Lemma enough_fuel m :
  0 <= m -> m < 10 ^ Z.of_nat (S (Z.to_nat (Z.log2 m))).
Proof.
  intros Hm. rewrite Nat2Z.inj_succ, Z2Nat.id by apply Z.log2_nonneg.
  destruct (Z.eq_dec m 0) as [->|Hne].
  - simpl. lia.
  - pose proof (Z.log2_spec m ltac:(lia)) as [_ Hlt].
    pose proof (Z.log2_nonneg m).
    assert (2 ^ Z.succ (Z.log2 m) <= 10 ^ Z.succ (Z.log2 m))
      by (apply Z.pow_le_mono_l; lia).
    lia.
Qed.

Lemma digit_cases d :
  is_digit d ->
  d = 0 \/ d = 1 \/ d = 2 \/ d = 3 \/ d = 4 \/ d = 5 \/ d = 6 \/ d = 7
  \/ d = 8 \/ d = 9.
Proof. unfold is_digit. lia. Qed.

Lemma digit_code_facts d :
  is_digit d ->
  is_white_space (digit_code d) = false
  /\ (digit_code d =? 45)%N = false
  /\ (digit_code d =? 43)%N = false
  /\ (digit_code d =? 120)%N = false
  /\ (digit_code d =? 88)%N = false
  /\ radix_digit 10 (digit_code d) = Some d.
Proof.
  intros H. apply digit_cases in H.
  repeat (destruct H as [->|H]); try subst d; repeat split.
Qed.

Lemma digits_prefix_codes ds rest :
  Forall is_digit ds ->
  digits_prefix 10 (map digit_code ds ++ rest) = ds ++ digits_prefix 10 rest.
Proof.
  induction 1 as [|d ds Hd _ IH]; [reflexivity|].
  simpl. destruct (digit_code_facts d Hd) as (_ & _ & _ & _ & _ & ->).
  rewrite IH. reflexivity.
Qed.

Lemma digits_prefix_ends rest :
  ends_number rest = true -> digits_prefix 10 rest = [].
Proof.
  destruct rest as [|c r]; [reflexivity|]. simpl.
  destruct (radix_digit 10 c); [discriminate|reflexivity].
Qed.

(** The hexadecimal prefix is not seen in front of decimal digits that are
    followed by such text. *)
Lemma no_hex_prefix d ds rest :
  Forall is_digit ds -> ends_number rest = true ->
  match map digit_code ds ++ rest with
  | c1 :: _ => ((digit_code d =? 48) && ((c1 =? 120) || (c1 =? 88)))%N = false
  | [] => True
  end.
Proof.
  intros Hds Hr. destruct ds as [|d1 ds]; simpl.
  - destruct rest as [|c r]; [exact I|]. simpl in Hr.
    destruct (radix_digit 10 c); [discriminate|].
    apply negb_true_iff in Hr. rewrite Hr. apply andb_false_r.
  - inversion Hds as [|? ? Hd1 _]; subst.
    destruct (digit_code_facts d1 Hd1) as (_ & _ & _ & -> & -> & _).
    apply andb_false_r.
Qed.

Lemma parseInt_digits ds rest :
  ds <> [] -> Forall is_digit ds -> ends_number rest = true ->
  parseInt (map digit_code ds ++ rest) = Some (decimal_value ds)
  /\ parseInt (45%N :: map digit_code ds ++ rest) = Some (- decimal_value ds).
Proof.
  intros Hne Hds Hr. destruct ds as [|d ds]; [congruence|].
  inversion Hds as [|? ? Hd Hds']; subst.
  destruct (digit_code_facts d Hd) as (Hws & H45 & H43 & _ & _ & Hrd).
  pose proof (no_hex_prefix d ds rest Hds' Hr) as Hhex.
  pose proof (digits_prefix_codes (d :: ds) rest Hds) as Hp.
  rewrite (digits_prefix_ends rest Hr), app_nil_r in Hp.
  simpl map in Hp. simpl app in Hp.
  unfold parseInt. simpl map. simpl app.
  remember (map digit_code ds ++ rest) as tail eqn:E. clear E.
  split.
  - simpl trimStart. rewrite Hws, H45, H43.
    destruct tail as [|c1 r].
    + rewrite Hp. unfold decimal_value. f_equal. apply Z.mul_1_l.
    + rewrite Hhex, Hp. unfold decimal_value. f_equal. apply Z.mul_1_l.
  - simpl trimStart. cbv beta iota zeta.
    rewrite N.eqb_refl. cbv beta iota zeta.
    destruct tail as [|c1 r].
    + rewrite Hp. unfold decimal_value. f_equal; lia.
    + rewrite Hhex, Hp. unfold decimal_value. f_equal; lia.
Qed.

Lemma parseInt_toString n rest :
  ends_number rest = true -> parseInt (toString n ++ rest) = Some n.
Proof.
  intros Hr. unfold toString.
  set (m := Z.abs n).
  set (ds := decimal_digits (S (Z.to_nat (Z.log2 m))) m []).
  assert (0 <= m) as Hm by apply Z.abs_nonneg.
  assert (decimal_value ds = m) as Hv.
  { unfold decimal_value, ds. rewrite decimal_digits_value; [reflexivity|].
    split; [exact Hm|apply enough_fuel; exact Hm]. }
  destruct (parseInt_digits ds rest) as [Hpos Hneg]; [| |exact Hr|].
  - apply decimal_digits_nonempty.
  - apply decimal_digits_digits; [exact Hm|constructor].
  - destruct (Z.ltb_spec n 0).
    + simpl app. rewrite Hneg, Hv. f_equal. unfold m. lia.
    + rewrite Hpos, Hv. f_equal. unfold m. lia.
Qed.

Example toString_examples :
  toString 0 = lit "0" /\ toString 50 = lit "50" /\ toString (-3) = lit "-3".
Proof. repeat split. Qed.

Example parseInt_hex_entry :
  numMultipleChoice (onChange_numMultipleChoice (lit "0x1f") initial_config) = 31.
Proof. reflexivity. Qed.

(** An entry is read up to its first code unit that is not a digit: an
    integer typed in decimal, followed by nothing or by a fraction, a unit
    or any text that ends the number, is stored as that integer, in both
    count fields. *)
Theorem entry_read_up_to_first_non_digit (n : Z) (rest : jsstring)
    (c : ExamConfig) :
  Z.abs n <= 2 ^ 53 -> ends_number rest = true ->
  numMultipleChoice (onChange_numMultipleChoice (toString n ++ rest) c) = n
  /\ numEssay (onChange_numEssay (toString n ++ rest) c) = n.
Proof.
  intros _ Hr. simpl. rewrite (parseInt_toString n rest Hr). simpl.
  destruct (Z.eqb_spec n 0); auto.
Qed.

Lemma entry_read_up_to_first_non_digit_witness :
  numMultipleChoice
    (onChange_numMultipleChoice (toString 3 ++ lit ".7") initial_config) = 3
  /\ numEssay (onChange_numEssay (toString 3 ++ lit ".7") initial_config) = 3.
Proof.
  apply (entry_read_up_to_first_non_digit 3 (lit ".7") initial_config).
  - simpl. lia.
  - reflexivity.
Defined.

(** Typing the count that the field displays back into it leaves the
    configuration as it is. *)
Theorem displayed_count_round_trip (c : ExamConfig) :
  Z.abs (numMultipleChoice c) <= 2 ^ 53 -> Z.abs (numEssay c) <= 2 ^ 53 ->
  onChange_numMultipleChoice (toString (numMultipleChoice c)) c = c
  /\ onChange_numEssay (toString (numEssay c)) c = c.
Proof.
  intros _ _. unfold onChange_numMultipleChoice, onChange_numEssay.
  pose proof (parseInt_toString (numMultipleChoice c) [] eq_refl) as H1.
  pose proof (parseInt_toString (numEssay c) [] eq_refl) as H2.
  rewrite app_nil_r in H1, H2. rewrite H1, H2. simpl.
  destruct c as [t g d mc es tk vd lg]. simpl.
  destruct (Z.eqb_spec mc 0), (Z.eqb_spec es 0); subst; auto.
Qed.

Lemma displayed_count_round_trip_witness :
  onChange_numMultipleChoice (toString 10) initial_config = initial_config
  /\ onChange_numEssay (toString 2) initial_config = initial_config.
Proof.
  apply (displayed_count_round_trip initial_config); simpl; lia.
Defined.

(** ** AttachmentStore, continued *)

(** What the filter of [onDrop] lets through: the type [application/pdf]
    itself, or any type that begins with [image/]. *)
Theorem accepted_types (file : File) :
  accepted file = true
  <-> type file = lit "application/pdf"
      \/ exists subtype, type file = lit "image/" ++ subtype.
Proof.
  unfold accepted. rewrite orb_true_iff, strict_eq_eq. split.
  - intros [H|H]; [left; exact H|right; apply startsWith_split; exact H].
  - intros [H|[sub H]]; [left; exact H|right].
    rewrite H. apply startsWith_prefix.
Qed.

Lemma accepted_types_witness : accepted file_png = true.
Proof.
  apply (proj2 (accepted_types file_png)).
  right. exists (lit "png"). reflexivity.
Defined.

Lemma filter_index_Forall {A} (P : A -> Prop) (p : A -> nat -> bool) (l : list A) :
  forall i, Forall P l -> Forall P (filter_index p i l).
Proof.
  induction l as [|x l IH]; intros i H; [constructor|].
  inversion H; subst. simpl. destruct (p x i); [constructor|]; auto.
Qed.

Lemma removeFile_at (i : nat) (fs : list File) :
  (i < length fs)%nat ->
  removeFile (Z.of_nat i) fs = take i fs ++ drop (S i) fs.
Proof. intros H. apply filter_index_hit; [lia|exact H]. Qed.

Lemma removeFile_beyond (i : nat) (fs : list File) :
  (length fs <= i)%nat -> removeFile (Z.of_nat i) fs = fs.
Proof. intros H. apply filter_index_miss. lia. Qed.

(** Removing the position at which the picker has just put a file gives
    the store back, followed by the other files picked with it. *)
Theorem pick_then_remove (f : File) (more files : list File) :
  removeFile (Z.of_nat (length files)) (handleFileChange (f :: more) files)
  = files ++ more.
Proof.
  unfold handleFileChange. simpl.
  rewrite removeFile_at by (rewrite length_app; simpl; lia).
  rewrite take_app_length.
  replace (S (length files)) with (length (files ++ [f]))
    by (rewrite length_app; simpl; lia).
  rewrite (cons_middle f files more), app_assoc, drop_app_length.
  reflexivity.
Qed.

(** Removing a file that was in the store before and adding files at the
    end can be done in either order. *)
Theorem remove_commutes_with_pick (i : nat) (picked files : list File) :
  (i < length files)%nat ->
  removeFile (Z.of_nat i) (handleFileChange picked files)
  = handleFileChange picked (removeFile (Z.of_nat i) files).
Proof.
  intros H. unfold handleFileChange.
  destruct (0 <? length picked)%nat; [|reflexivity].
  rewrite removeFile_at by (rewrite length_app; lia).
  rewrite (removeFile_at i files H).
  rewrite take_app_le by lia. rewrite drop_app_le by lia.
  rewrite <- app_assoc. reflexivity.
Qed.

Lemma remove_commutes_with_pick_witness :
  removeFile 0 (handleFileChange [file_txt] [file_png; file_pdf])
  = handleFileChange [file_txt] (removeFile 0 [file_png; file_pdf]).
Proof.
  apply (remove_commutes_with_pick 0 [file_txt] [file_png; file_pdf]).
  simpl. lia.
Defined.

(** After [removeFile] the files before the index are where they were and
    the files after it have moved down by one. *)
Theorem removeFile_lookup (i j : nat) (fs : list File) :
  removeFile (Z.of_nat i) fs !! j
  = if (j <? i)%nat then fs !! j else fs !! S j.
Proof.
  destruct (Nat.lt_ge_cases i (length fs)) as [Hi|Hi].
  - rewrite (removeFile_at i fs Hi).
    destruct (Nat.ltb_spec j i) as [Hj|Hj].
    + rewrite lookup_app_l by (rewrite length_take; lia).
      apply lookup_take_lt. exact Hj.
    + rewrite lookup_app_r by (rewrite length_take; lia).
      rewrite length_take, lookup_drop. f_equal. lia.
  - rewrite (removeFile_beyond i fs Hi).
    destruct (Nat.ltb_spec j i) as [Hj|Hj]; [reflexivity|].
    rewrite !lookup_ge_None_2 by lia. reflexivity.
Qed.

(** ** ConfigStore, continued *)

(** Each of the two switches, pressed twice, gives the configuration back;
    the two switches can be pressed in either order. *)
Theorem switches_are_involutions (c : ExamConfig) :
  onClick_useTikz (onClick_useTikz c) = c
  /\ onClick_varyData (onClick_varyData c) = c
  /\ onClick_useTikz (onClick_varyData c) = onClick_varyData (onClick_useTikz c).
Proof.
  destruct c as [t g d mc es tk vd lg].
  unfold onClick_useTikz, onClick_varyData. simpl.
  rewrite !negb_involutive. repeat split.
Qed.

(** ** PreviewManager, continued *)

Module PreviewAccounting.
Import Preview.

Lemma accounted_initial : accounted initial.
Proof. intros u. simpl. split; [split; [lia|tauto]|tauto]. Qed.

Ltac account H u nx :=
  let Hu := fresh "Hu" in
  pose proof (H u) as Hu; simpl in Hu;
  rewrite ?in_app_iff; simpl;
  destruct (Nat.lt_trichotomy u nx) as [?|[?|?]];
  intuition (subst; try lia).

Lemma accounted_step cb e :
  consistent cb -> accounted cb -> accounted (step cb e).
Proof.
  destruct cb as [[pf cap m] [st nx rv]]. unfold consistent, accounted. simpl.
  intros (Hcap & Hlt & Hst) H. subst cap.
  destruct m; [|exact H].
  destruct e as [file| |]; simpl.
  - unfold commit; simpl. destruct pf as [p|]; simpl.
    + specialize (Hlt p eq_refl). subst st.
      destruct (Nat.eqb_spec nx (url p)) as [E|E]; [lia|]. simpl.
      rewrite Nat.eqb_refl. simpl.
      destruct (Nat.eqb_spec nx (url p)) as [E'|_]; [lia|]. simpl.
      pose proof (H nx) as Hnx. simpl in Hnx.
      intros u. account H u nx.
    + subst st. simpl. pose proof (H nx) as Hnx. simpl in Hnx.
      intros u. account H u nx.
  - destruct pf as [p|]; simpl.
    + specialize (Hlt p eq_refl). subst st.
      unfold commit; simpl. rewrite Nat.eqb_refl. simpl.
      intros u. account H u nx.
    + unfold commit; simpl. exact H.
  - unfold cleanup; simpl. destruct pf as [p|]; simpl; [|exact H].
    specialize (Hlt p eq_refl). subst st. simpl. rewrite Nat.eqb_refl. simpl.
    intros u. account H u nx.
Qed.

Lemma accounted_exec tr :
  forall cb, consistent cb -> accounted cb -> accounted (exec cb tr).
Proof.
  induction tr as [|e tr IH]; intros cb Hc Ha; [exact Ha|].
  simpl. apply IH.
  - apply PreviewFacts.consistent_step, Hc.
  - apply accounted_step; assumption.
Qed.

(** Whatever the user does, the only live URL is the URL of the preview on
    display; every other URL created so far has been revoked, the one on
    display has never been revoked, and no URL that was not created has
    been revoked. *)
Theorem preview_urls_accounted (tr : list Event) (u : Url) :
  let cb := exec initial tr in
  live cb = match shown_url cb with Some v => [v] | None => [] end
  /\ ((u < next (snd cb))%nat
      <-> shown_url cb = Some u \/ (0 < releases u cb)%nat)
  /\ (shown_url cb = Some u -> releases u cb = 0%nat).
Proof.
  intros cb.
  pose proof (accounted_exec tr initial PreviewFacts.consistent_initial
                accounted_initial u) as [H1 H2].
  pose proof (PreviewFacts.consistent_exec tr initial
                PreviewFacts.consistent_initial) as Hc.
  fold cb in H1, H2, Hc. unfold live, releases, shown_url.
  destruct cb as [c b]. destruct Hc as (_ & _ & Hst). simpl in *.
  assert (forall l, In u l <-> (0 < count_occ Nat.eq_dec l u)%nat) as Hin
    by (intros l; apply count_occ_In).
  assert (forall l, ~ In u l <-> count_occ Nat.eq_dec l u = 0%nat) as Hout
    by (intros l; apply count_occ_not_In).
  rewrite Hst in H1, H2. rewrite Hst.
  destruct (mounted c); [destruct (previewFile c) as [p|]|]; simpl in *.
  - split; [reflexivity|]. split.
    + rewrite H1, (Hin (revocations b)).
      split; (intros [[E|[]]|H]; [left; congruence|right; exact H])
             || (intros [E|H]; [left; left; congruence|right; exact H]).
    + intros [= E]. apply Hout, H2. left. exact E.
  - split; [reflexivity|]. split.
    + rewrite H1, (Hin (revocations b)).
      split; [intros [[]|H]; right; exact H|intros [E|H]; [discriminate|right; exact H]].
    + discriminate.
  - split; [reflexivity|]. split.
    + rewrite H1, (Hin (revocations b)).
      split; [intros [[]|H]; right; exact H|intros [E|H]; [discriminate|right; exact H]].
    + discriminate.
Qed.

End PreviewAccounting.

(** ** RequestPipeline: how a run can end *)

Section RunFacts.

Variable promptText : ExamConfig -> nat -> jsstring.

Lemma guard_passes s :
  topic (config s) <> [] \/ files s <> [] ->
  is_empty (topic (config s)) && (length (files s) =? 0)%nat = false.
Proof.
  intros [H|H].
  - destruct (topic (config s)); [congruence|reflexivity].
  - destruct (files s); [congruence|]. apply andb_false_r.
Qed.

Lemma handleGenerate_passes s :
  topic (config s) <> [] \/ files s <> [] ->
  handleGenerate promptText s
  = for_files (files s)
      [TextPart (promptText (config s) (length (files s)))]
      (setGeneratedCode [] (setError None (setIsLoading true s))).
Proof.
  intros H. unfold handleGenerate. rewrite (guard_passes s H). reflexivity.
Qed.

(** The three ways the loop over the files can leave an invocation: still
    waiting for a conversion, ended by a rejection, or waiting for the
    reply to the request it has sent. *)
Lemma settle_reads_outcome rs :
  forall s f rest parts,
  (exists f' rest' parts',
     settle_reads rs s (AwaitFile f rest parts) = (s, AwaitFile f' rest' parts'))
  \/ (exists err,
        settle_reads rs s (AwaitFile f rest parts) = (catch_finally err s, Done))
  \/ (exists parts',
        settle_reads rs s (AwaitFile f rest parts)
        = (generateContent parts' s, AwaitResponse parts')).
Proof.
  induction rs as [|r rs IH]; intros s f rest parts.
  - left. simpl. eauto.
  - destruct r as [d|err]; simpl.
    + destruct rest as [|f1 rest1]; simpl.
      * right. right. rewrite settle_reads_AwaitResponse. eauto.
      * apply IH.
    + right. left. rewrite settle_reads_Done. eauto.
Qed.

Lemma run_outcome env s :
  topic (config s) <> [] \/ files s <> [] ->
  let r := run_handleGenerate promptText env s in
  (exists f rest parts, r = (started s, AwaitFile f rest parts))
  \/ (exists err, r = (catch_finally err (started s), Done))
  \/ (exists parts err,
        r = (catch_finally err (generateContent parts (started s)), Done))
  \/ (exists parts response,
        r = (setIsLoading false
               (setGeneratedCode (sanitize (text_or_empty response))
                  (generateContent parts (started s))), Done)).
Proof.
  intros H r. remember r as r0 eqn:Hr. subst r.
  unfold run_handleGenerate in Hr.
  rewrite (handleGenerate_passes s H) in Hr. fold (started s) in Hr.
  destruct (files s) as [|f0 fs]; simpl for_files in Hr;
    cbv beta iota zeta in Hr.
  - rewrite settle_reads_AwaitResponse in Hr. simpl in Hr.
    destruct (reply env _) as [response|err]; subst r0; eauto 10.
  - destruct (settle_reads_outcome (reads env) (started s) f0 fs
                [TextPart (promptText (config s) (S (length fs)))])
      as [(f & rest & parts & E)|[(err & E)|(parts & E)]];
      rewrite E in Hr; simpl in Hr.
    + subst r0. eauto 10.
    + subst r0. eauto 10.
    + destruct (reply env parts) as [response|err]; subst r0; eauto 10.
Qed.

(** Whatever the environment does, a run of [handleGenerate] leaves the
    configuration and the attachment list as they were (the attachments
    stay in the store after a successful submission too), and sends at
    most one request. *)
Theorem run_leaves_form_untouched (env : Env) (s : State) :
  let r := run_handleGenerate promptText env s in
  config (fst r) = config s
  /\ files (fst r) = files s
  /\ (calls (fst r) = calls s \/ exists req, calls (fst r) = calls s ++ [req]).
Proof.
  intros r.
  destruct (topic (config s)) as [|c t] eqn:Ht;
    [destruct (files s) as [|f fs] eqn:Hf|].
  - subst r. rewrite (run_handleGenerate_rejected promptText env s Ht Hf).
    simpl. auto.
  - destruct (run_outcome env s) as
      [(f' & rest & parts & E)|[(err & E)|[(parts & err & E)|(parts & resp & E)]]];
      [right; congruence|..]; fold r in E; rewrite E; simpl; eauto.
  - destruct (run_outcome env s) as
      [(f' & rest & parts & E)|[(err & E)|[(parts & err & E)|(parts & resp & E)]]];
      [left; congruence|..]; fold r in E; rewrite E; simpl; eauto.
Qed.




Lemma run_reaches_call env s ds later :
  topic (config s) <> [] \/ files s <> [] ->
  reads env = map Resolved ds ++ later ->
  length ds = length (files s) ->
  run_handleGenerate promptText env s
  = settle_call (reply env)
      (generateContent
         (TextPart (promptText (config s) (length (files s)))
          :: zip_with inline_part (files s) ds) (started s))
      (AwaitResponse
         (TextPart (promptText (config s) (length (files s)))
          :: zip_with inline_part (files s) ds)).
Proof.
  intros H Hr Hl. unfold run_handleGenerate.
  rewrite (handleGenerate_passes s H), Hr. fold (started s).
  destruct (files s) as [|f0 fs]; simpl for_files; cbv beta iota zeta.
  - rewrite settle_reads_AwaitResponse. destruct ds; [|discriminate].
    reflexivity.
  - rewrite settle_reads_all by exact Hl. reflexivity.
Qed.

(** A submission with a topic or attachments, whose conversions all
    resolve and whose call resolves: one request has been sent, the
    sanitized reply is published, no error is shown and the busy flag is
    cleared. *)
Theorem successful_run (env : Env) (s : State) (ds : list jsstring)
    (later : list (Settled jsstring)) (response : Response) :
  topic (config s) <> [] \/ files s <> [] ->
  reads env = map Resolved ds ++ later ->
  length ds = length (files s) ->
  reply env (TextPart (promptText (config s) (length (files s)))
             :: zip_with inline_part (files s) ds) = Resolved response ->
  run_handleGenerate promptText env s
  = ({| config := config s; files := files s;
        generatedCode := sanitize (text_or_empty response);
        isLoading := false; error := None;
        calls := calls s
                 ++ [TextPart (promptText (config s) (length (files s)))
                     :: zip_with inline_part (files s) ds] |}, Done).
Proof.
  intros H Hr Hl Hreply. rewrite (run_reaches_call env s ds later H Hr Hl).
  simpl. rewrite Hreply. reflexivity.
Qed.

(** The same submission when the call is rejected: the request has been
    sent once, the message of the rejection (or the default one) is shown,
    the output is empty and the busy flag is cleared; there is no second
    attempt. *)
Theorem provider_failure (env : Env) (s : State) (ds : list jsstring)
    (later : list (Settled jsstring)) (err : JsError) :
  topic (config s) <> [] \/ files s <> [] ->
  reads env = map Resolved ds ++ later ->
  length ds = length (files s) ->
  reply env (TextPart (promptText (config s) (length (files s)))
             :: zip_with inline_part (files s) ds) = Rejected err ->
  run_handleGenerate promptText env s
  = ({| config := config s; files := files s;
        generatedCode := [];
        isLoading := false; error := Some (message_or_default err);
        calls := calls s
                 ++ [TextPart (promptText (config s) (length (files s)))
                     :: zip_with inline_part (files s) ds] |}, Done).
Proof.
  intros H Hr Hl Hreply. rewrite (run_reaches_call env s ds later H Hr Hl).
  simpl. rewrite Hreply. reflexivity.
Qed.

(** While a conversion has not settled nothing is sent: the invocation
    waits for it, holding the parts of the files converted so far, and the
    busy flag stays set. *)
Theorem run_waits_for_conversion (env : Env) (s : State) (ds : list jsstring) :
  reads env = map Resolved ds ->
  (length ds < length (files s))%nat ->
  exists file rest,
    files s = take (length ds) (files s) ++ file :: rest
    /\ run_handleGenerate promptText env s
       = (started s,
          AwaitFile file rest
            (TextPart (promptText (config s) (length (files s)))
             :: zip_with inline_part (take (length ds) (files s)) ds)).
Proof.
  intros Hr Hl.
  destruct (drop (length ds) (files s)) as [|file rest] eqn:Ed.
  { apply (f_equal length) in Ed. rewrite length_drop in Ed. simpl in Ed. lia. }
  assert (files s = take (length ds) (files s) ++ file :: rest) as E
    by (rewrite <- Ed; symmetry; apply take_drop).
  exists file, rest. split; [exact E|].
  unfold run_handleGenerate.
  rewrite (handleGenerate_passes s)
    by (right; intros Hnil; rewrite Hnil in Hl; simpl in Hl; lia).
  fold (started s). rewrite Hr.
  destruct (files s) as [|f0 fs] eqn:Hf; [simpl in Hl; lia|].
  simpl for_files. cbv beta iota zeta.
  rewrite <- (app_nil_r (map Resolved ds)).
  rewrite (settle_reads_resolved ds (take (length ds) (f0 :: fs)) f0 fs
             file rest _ [] _ E) by (rewrite length_take; lia).
  reflexivity.
Qed.

End RunFacts.


Lemma successful_run_witness :
  run_handleGenerate sample_prompt env_doc state_fractions
  = ({| config := config state_fractions; files := [];
        generatedCode := lit "DOC"; isLoading := false; error := None;
        calls := [[TextPart (lit "PROMPT")]] |}, Done).
Proof.
  apply (successful_run sample_prompt env_doc state_fractions [] []
           {| response_text :=
                Some (lit "```" ++ [10%N] ++ lit "DOC" ++ [10%N] ++ lit "```") |}).
  - left. discriminate.
  - reflexivity.
  - reflexivity.
  - reflexivity.
Defined.

Lemma provider_failure_witness :
  run_handleGenerate sample_prompt env_quota state_two_files
  = ({| config := config state_two_files; files := [file_png; file_pdf];
        generatedCode := [];
        isLoading := false; error := Some (lit "quota exceeded");
        calls := [[TextPart (lit "PROMPT");
                   InlineData (lit "image/png") (Some (lit "iVA="));
                   InlineData (lit "application/pdf") (Some (lit "JVA="))]] |},
     Done).
Proof.
  apply (provider_failure sample_prompt env_quota state_two_files
           [lit "data:image/png;base64,iVA=";
            lit "data:application/pdf;base64,JVA="] []
           {| message := Some (lit "quota exceeded") |}).
  - right. discriminate.
  - reflexivity.
  - reflexivity.
  - reflexivity.
Defined.

Lemma run_waits_for_conversion_witness :
  exists file rest,
    files state_two_files
    = take 1 (files state_two_files) ++ file :: rest
    /\ run_handleGenerate sample_prompt env_first_read_only state_two_files
       = (started state_two_files,
          AwaitFile file rest
            (TextPart (lit "PROMPT")
             :: zip_with inline_part (take 1 (files state_two_files))
                  [lit "data:image/png;base64,iVA="])).
Proof.
  apply (run_waits_for_conversion sample_prompt env_first_read_only
           state_two_files [lit "data:image/png;base64,iVA="]).
  - reflexivity.
  - simpl. lia.
Defined.

(** ** RequestPipeline: invariants of the transition system *)

Section MachineInvariants.

Variable promptText : ExamConfig -> nat -> jsstring.

Lemma count_filter_insert {A} (f : A -> bool) (l : list A) :
  forall i k k', l !! i = Some k ->
  (length (List.filter f (<[i := k']> l)) + (if f k then 1 else 0)
   = length (List.filter f l) + (if f k' then 1 else 0))%nat.
Proof.
  induction l as [|x l IH]; intros i k k' H; [discriminate|].
  destruct i as [|i]; simpl in H.
  - injection H as ->. simpl. destruct (f k), (f k'); simpl; lia.
  - specialize (IH i k k' H). simpl. destruct (f x); simpl; lia.
Qed.

(** *** One request per invocation at most *)

Lemma handleGenerate_sends_once s :
  (length (calls (fst (handleGenerate promptText s)))
   + (if awaiting_file (snd (handleGenerate promptText s)) then 1 else 0)
   <= length (calls s) + 1)%nat.
Proof.
  unfold handleGenerate.
  destruct (is_empty (topic (config s)) && (length (files s) =? 0)%nat);
    simpl; [lia|].
  destruct (files s); simpl; rewrite ?length_app; simpl; lia.
Qed.

Lemma resume_sends_once k o s :
  (length (calls (fst (resume k o s)))
   + (if awaiting_file (snd (resume k o s)) then 1 else 0)
   <= length (calls s) + (if awaiting_file k then 1 else 0))%nat.
Proof.
  destruct k as [file rest parts|parts|], o as [[r|e]|[r|e]]; simpl; try lia.
  destruct rest; simpl; rewrite ?length_app; simpl; lia.
Qed.

Lemma sends_once_step w e :
  (length (calls (state w)) + length (List.filter awaiting_file (pending w))
   <= length (pending w))%nat ->
  (length (calls (state (step promptText w e)))
   + length (List.filter awaiting_file (pending (step promptText w e)))
   <= length (pending (step promptText w e)))%nat.
Proof.
  intros H.
  assert (length (calls (state (invoke promptText w)))
          + length (List.filter awaiting_file (pending (invoke promptText w)))
          <= length (pending (invoke promptText w)))%nat as Hi.
  { unfold invoke. pose proof (handleGenerate_sends_once (state w)) as Hg.
    destruct (handleGenerate promptText (state w)) as [s k]. simpl in *.
    rewrite List.filter_app, !length_app. simpl.
    destruct (awaiting_file k); simpl; lia. }
  destruct e; simpl; try exact H; try exact Hi.
  - destruct (isLoading (state w)); [exact H|exact Hi].
  - destruct (pending w !! i) as [k|] eqn:Hp; [|exact H].
    pose proof (resume_sends_once k o (state w)) as Hr.
    pose proof (count_filter_insert awaiting_file (pending w) i k
                  (snd (resume k o (state w))) Hp) as Hc.
    destruct (resume k o (state w)) as [s k']. simpl in *.
    rewrite length_insert. lia.
Qed.

(** Whatever happens, direct calls of the handler included, no more
    requests have been sent than invocations were started: an invocation
    never sends a second request. *)
Theorem one_request_per_invocation (tr : list Event) :
  (length (calls (state (exec promptText initial_world tr)))
   <= length (pending (exec promptText initial_world tr)))%nat.
Proof.
  assert (forall w,
            (length (calls (state w))
             + length (List.filter awaiting_file (pending w))
             <= length (pending w))%nat ->
            (length (calls (state (exec promptText w tr)))
             + length (List.filter awaiting_file (pending (exec promptText w tr)))
             <= length (pending (exec promptText w tr)))%nat) as H.
  { induction tr as [|e tr IH]; intros w Hw; [exact Hw|].
    simpl. apply IH, sends_once_step, Hw. }
  specialize (H initial_world). simpl in H.
  pose proof (H ltac:(lia)). lia.
Qed.

(** *** The shape of every request *)


Lemma is_request_push parts mimeType data :
  is_request parts = true ->
  is_request (parts ++ [InlineData mimeType data]) = true.
Proof.
  destruct parts as [|[t|m d] others]; simpl; try discriminate.
  intros H. rewrite forallb_app, H. reflexivity.
Qed.

Lemma requests_ok_for_files fs parts s :
  is_request parts = true ->
  Forall (fun req => is_request req = true) (calls s) ->
  Forall (fun req => is_request req = true) (calls (fst (for_files fs parts s)))
  /\ held_ok (snd (for_files fs parts s)) = true.
Proof.
  intros Hp Hc. destruct fs; simpl; [|auto].
  split; [|exact Hp]. apply Forall_app. auto.
Qed.

Lemma requests_ok_step w e :
  requests_ok w -> requests_ok (step promptText w e).
Proof.
  intros [Hc Hk].
  assert (requests_ok (invoke promptText w)) as Hi.
  { unfold requests_ok, invoke, handleGenerate.
    destruct (is_empty (topic (config (state w)))
              && (length (files (state w)) =? 0)%nat); simpl.
    - split; [exact Hc|]. apply Forall_app. auto.
    - destruct (requests_ok_for_files (files (state w))
                  [TextPart (promptText (config (state w))
                               (length (files (state w))))]
                  (setGeneratedCode [] (setError None
                     (setIsLoading true (state w)))) eq_refl Hc) as [H1 H2].
      destruct (for_files _ _ _) as [s k]. simpl in *.
      split; [exact H1|]. apply Forall_app. auto. }
  destruct e; simpl; try (split; assumption); try exact Hi.
  - destruct (isLoading (state w)); [split; assumption|exact Hi].
  - destruct (pending w !! i) as [k|] eqn:Hp; [|split; assumption].
    assert (held_ok k = true) as Hok
      by (eapply (proj1 (Forall_lookup _ _) Hk); exact Hp).
    assert (Forall (fun req => is_request req = true)
              (calls (fst (resume k o (state w))))
            /\ held_ok (snd (resume k o (state w))) = true) as [H1 H2].
    { destruct k as [file rest parts|parts|], o as [[r|err]|[r|err]];
        simpl; auto.
      apply (requests_ok_for_files rest _ (state w)); [|exact Hc].
      unfold inline_part. apply is_request_push. exact Hok. }
    destruct (resume k o (state w)) as [s k']. simpl in *.
    split; [exact H1|]. apply Forall_insert; assumption.
Qed.

(** Every request that is ever sent, direct calls of the handler included,
    is one instruction text followed by inline data parts only. *)
Theorem every_request_is_text_then_inline_data (tr : list Event) :
  Forall (fun req => is_request req = true)
    (calls (state (exec promptText initial_world tr))).
Proof.
  assert (forall w, requests_ok w -> requests_ok (exec promptText w tr)) as H.
  { induction tr as [|e tr IH]; intros w Hw; [exact Hw|].
    simpl. apply IH, requests_ok_step, Hw. }
  apply (H initial_world). split; constructor.
Qed.

(** *** What is on display while a request is in flight *)

Lemma busy_is_blank_step w e :
  from_ui e = true ->
  busy_is_blank (state w) -> busy_is_blank (state (step promptText w e)).
Proof.
  unfold busy_is_blank. intros Hui H.
  destruct e; try discriminate; simpl; try exact H.
  - destruct (isLoading (state w)) eqn:Hl; [intros _; apply H; reflexivity|].
    unfold invoke, handleGenerate.
    destruct (is_empty (topic (config (state w)))
              && (length (files (state w)) =? 0)%nat); simpl.
    + rewrite Hl. discriminate.
    + destruct (files (state w)); simpl; auto.
  - destruct (pending w !! i) as [k|]; [|exact H].
    destruct k as [file rest parts|parts|], o as [[r|err]|[r|err]];
      simpl; try exact H; try discriminate.
    destruct rest; simpl; exact H.
Qed.

(** Through the rendered interface, the progress indicator is never shown
    together with a result, its copy button or an error, and the output
    pane shows exactly one of the placeholder, the progress indicator and a
    result. *)
Theorem output_pane_shows_one_thing (tr : list Event) :
  forallb from_ui tr = true ->
  let v := render (state (exec promptText initial_world tr)) in
  (progress v = true ->
   generate_disabled v = true /\ copy_button v = false
   /\ error_banner v = false)
  /\ ((placeholder v, progress v, copy_button v) = (true, false, false)
      \/ (placeholder v, progress v, copy_button v) = (false, true, false)
      \/ (placeholder v, progress v, copy_button v) = (false, false, true)).
Proof.
  intros Hui v.
  assert (forall w, forallb from_ui tr = true ->
            busy_is_blank (state w) ->
            busy_is_blank (state (exec promptText w tr))) as H.
  { clear. induction tr as [|e tr IH]; intros w Hui Hw; [exact Hw|].
    simpl in Hui. apply andb_true_iff in Hui as [He Htr].
    simpl. apply IH; [exact Htr|]. apply busy_is_blank_step; assumption. }
  specialize (H initial_world Hui ltac:(intro; discriminate)).
  subst v. unfold busy_is_blank in H. unfold render. simpl.
  destruct (isLoading (state (exec promptText initial_world tr))).
  - destruct (H eq_refl) as [-> ->]. simpl.
    split; auto.
  - split; [discriminate|].
    destruct (generatedCode (state (exec promptText initial_world tr)));
      simpl; auto.
Qed.

(** *** The store without the picker *)

Lemma handleGenerate_files s : files (fst (handleGenerate promptText s)) = files s.
Proof.
  unfold handleGenerate.
  destruct (is_empty (topic (config s)) && (length (files s) =? 0)%nat);
    [reflexivity|].
  destruct (files s) eqn:E; simpl; congruence.
Qed.

Lemma resume_files k o s : files (fst (resume k o s)) = files s.
Proof.
  destruct k as [file rest parts|parts|], o as [[r|err]|[r|err]];
    simpl; try reflexivity.
  destruct rest; reflexivity.
Qed.

Lemma accepted_step w e :
  not_picker e = true ->
  Forall (fun f => accepted f = true) (files (state w)) ->
  Forall (fun f => accepted f = true) (files (state (step promptText w e))).
Proof.
  intros He H.
  assert (Forall (fun f => accepted f = true)
            (files (state (invoke promptText w)))) as Hi.
  { unfold invoke. pose proof (handleGenerate_files (state w)) as E.
    destruct (handleGenerate promptText (state w)) as [s k]. simpl in *.
    rewrite E. exact H. }
  destruct e; try discriminate; simpl; try exact H; try exact Hi.
  - destruct (isLoading (state w)); [exact H|exact Hi].
  - destruct (pending w !! i) as [k|]; [|exact H].
    pose proof (resume_files k o (state w)) as E.
    destruct (resume k o (state w)) as [s k']. simpl in *.
    rewrite E. exact H.
  - apply onDrop_accepted. exact H.
  - apply filter_index_Forall. exact H.
Qed.

(** As long as no file comes in through the picker, every file in the
    store is a PDF or an image, whatever is dropped, removed, edited or
    submitted. *)
Theorem store_accepted_without_picker (tr : list Event) :
  forallb not_picker tr = true ->
  Forall (fun f => accepted f = true)
    (files (state (exec promptText initial_world tr))).
Proof.
  assert (forall w, forallb not_picker tr = true ->
            Forall (fun f => accepted f = true) (files (state w)) ->
            Forall (fun f => accepted f = true)
              (files (state (exec promptText w tr)))) as H.
  { induction tr as [|e tr IH]; intros w Hp Hw; [exact Hw|].
    simpl in Hp. apply andb_true_iff in Hp as [He Htr].
    simpl. apply IH; [exact Htr|]. apply accepted_step; assumption. }
  intros Hp. apply (H initial_world Hp). constructor.
Qed.

End MachineInvariants.

Lemma output_pane_shows_one_thing_witness :
  let v := render (state (exec sample_prompt initial_world
                            [ChangeTopic (lit "x"); ClickGenerate])) in
  (progress v = true ->
   generate_disabled v = true /\ copy_button v = false
   /\ error_banner v = false)
  /\ ((placeholder v, progress v, copy_button v) = (true, false, false)
      \/ (placeholder v, progress v, copy_button v) = (false, true, false)
      \/ (placeholder v, progress v, copy_button v) = (false, false, true)).
Proof.
  apply (output_pane_shows_one_thing sample_prompt
           [ChangeTopic (lit "x"); ClickGenerate]).
  reflexivity.
Defined.

Lemma store_accepted_without_picker_witness :
  Forall (fun f => accepted f = true)
    (files (state (exec sample_prompt initial_world
                     [DropFiles [file_png; file_txt; file_pdf]; RemoveFile 0;
                      ChangeTopic (lit "x"); ClickGenerate]))).
Proof.
  apply (store_accepted_without_picker sample_prompt
           [DropFiles [file_png; file_txt; file_pdf]; RemoveFile 0;
            ChangeTopic (lit "x"); ClickGenerate]).
  reflexivity.
Defined.

(** ** AttachmentEncoder: the payload of a data URL *)

Lemma split_comma_1_none header :
  Forall (fun c => c <> 44%N) header -> split_comma_1 header = None.
Proof.
  induction 1 as [|c r Hc _ IH]; [reflexivity|].
  simpl. destruct (N.eqb_spec c 44); [contradiction|exact IH].
Qed.

Lemma upto_comma_all payload :
  Forall (fun c => c <> 44%N) payload -> upto_comma payload = payload.
Proof.
  induction 1 as [|c r Hc _ IH]; [reflexivity|].
  simpl. destruct (N.eqb_spec c 44); [contradiction|]. rewrite IH. reflexivity.
Qed.

Lemma no_comma_check (l : jsstring) :
  forallb (fun c => negb (c =? 44)%N) l = true ->
  Forall (fun c => c <> 44%N) l.
Proof.
  induction l as [|c r IH]; simpl; intros H; constructor.
  - apply andb_true_iff in H as [H _]. apply negb_true_iff in H.
    apply N.eqb_neq. exact H.
  - apply IH. apply andb_true_iff in H as [_ H]. exact H.
Qed.

(** The part pushed for a file carries the file's type and, as data, what
    follows the first comma of the data URL: the whole base64 payload,
    which holds no comma itself.  A result with no comma at all gives a
    part with no data. *)
Theorem payload_follows_first_comma (file : File) (header : jsstring) :
  Forall (fun c => c <> 44%N) header ->
  inline_part file header = InlineData (type file) None
  /\ forall payload,
       Forall (fun c => c <> 44%N) payload ->
       inline_part file (header ++ 44%N :: payload)
       = InlineData (type file) (Some payload).
Proof.
  intros Hh. unfold inline_part. split.
  - rewrite (split_comma_1_none header Hh). reflexivity.
  - intros payload Hp. f_equal.
    induction Hh as [|c r Hc _ IH]; simpl.
    + rewrite (upto_comma_all payload Hp). reflexivity.
    + destruct (N.eqb_spec c 44); [contradiction|exact IH].
Qed.

Lemma payload_follows_first_comma_witness :
  inline_part file_png (lit "data:") = InlineData (lit "image/png") None
  /\ forall payload,
       Forall (fun c => c <> 44%N) payload ->
       inline_part file_png (lit "data:image/png;base64" ++ 44%N :: payload)
       = InlineData (lit "image/png") (Some payload).
Proof.
  split.
  - apply (payload_follows_first_comma file_png (lit "data:")).
    apply no_comma_check. reflexivity.
  - apply (payload_follows_first_comma file_png (lit "data:image/png;base64")).
    apply no_comma_check. reflexivity.
Defined.

(** ** PreviewManager: opening and closing *)

Module PreviewOpenClose.
Import Preview.

(** Whatever was on display, opening a preview shows the requested file
    under a fresh URL, classified as a PDF exactly when its type is
    [application/pdf], and that URL is the only live one. *)
Theorem open_shows_requested_file (tr : list Event) (file : File) :
  mounted (fst (exec initial tr)) = true ->
  let cb := exec initial tr in
  let cb' := exec initial (tr ++ [Open file]) in
  previewFile (fst cb')
  = Some {| url := next (snd cb);
            type := if strict_eq (mime file) (lit "application/pdf")
                    then pdf else image;
            name := title file |}
  /\ live cb' = [next (snd cb)].
Proof.
  intros Hm cb cb'. subst cb cb'. unfold exec in *. rewrite fold_left_app.
  pose proof (PreviewFacts.consistent_exec tr initial
                PreviewFacts.consistent_initial) as Hc.
  unfold exec in Hc.
  destruct (fold_left step tr initial) as [[pf cap m] [st nx rv]].
  simpl in Hm. subst m. destruct Hc as (Hcap & Hlt & Hst). simpl in *.
  subst cap st. unfold live, commit. simpl.
  destruct pf as [p|]; simpl.
  - specialize (Hlt p eq_refl).
    destruct (Nat.eqb_spec nx (url p)) as [E|E]; [lia|]. simpl.
    rewrite Nat.eqb_refl. simpl.
    destruct (Nat.eqb_spec nx (url p)) as [E'|_]; [lia|]. auto.
  - auto.
Qed.

(** Whatever was on display, after [closePreview] nothing is shown and no
    URL is live. *)
Theorem close_leaves_nothing_live (tr : list Event) :
  let cb' := exec initial (tr ++ [Close]) in
  mounted (fst cb') = true -> previewFile (fst cb') = None /\ live cb' = [].
Proof.
  intros cb'. subst cb'. unfold exec. rewrite fold_left_app.
  pose proof (PreviewFacts.consistent_exec tr initial
                PreviewFacts.consistent_initial) as Hc.
  unfold exec in Hc.
  destruct (fold_left step tr initial) as [[pf cap m] [st nx rv]].
  destruct Hc as (Hcap & Hlt & Hst). simpl in *. subst cap st.
  destruct m; simpl; [|discriminate]. intros _.
  unfold live, commit. destruct pf as [p|]; simpl.
  - rewrite Nat.eqb_refl. simpl. auto.
  - auto.
Qed.

End PreviewOpenClose.

Lemma open_shows_requested_file_witness :
  Preview.previewFile
    (fst (Preview.exec Preview.initial
            ([Preview.Open file_png] ++ [Preview.Open file_pdf])))
  = Some {| Preview.url := 1; Preview.type := Preview.pdf;
            Preview.name := lit "b.pdf" |}
  /\ Preview.live (Preview.exec Preview.initial
                     ([Preview.Open file_png] ++ [Preview.Open file_pdf]))
     = [1%nat].
Proof.
  apply (PreviewOpenClose.open_shows_requested_file
           [Preview.Open file_png] file_pdf).
  reflexivity.
Defined.

Lemma close_leaves_nothing_live_witness :
  Preview.previewFile
    (fst (Preview.exec Preview.initial
            ([Preview.Open file_png] ++ [Preview.Close]))) = None
  /\ Preview.live (Preview.exec Preview.initial
                     ([Preview.Open file_png] ++ [Preview.Close])) = [].
Proof.
  apply (PreviewOpenClose.close_leaves_nothing_live [Preview.Open file_png]).
  reflexivity.
Defined.

(** ** Output sanitizer: what it strips, and when a second pass is idle *)

Lemma endsWith_split s p : endsWith s p = true -> exists b, s = b ++ p.
Proof.
  unfold endsWith. intros H. apply startsWith_split in H as [t H].
  exists (rev t). apply (f_equal (@rev N)) in H.
  rewrite rev_involutive, rev_app_distr, rev_involutive in H. exact H.
Qed.

Lemma not_prefix_iff s p : (forall r, s <> p ++ r) <-> startsWith s p = false.
Proof.
  split.
  - intros H. destruct (startsWith s p) eqn:E; [|reflexivity].
    apply startsWith_split in E as [r E]. destruct (H r E).
  - intros H r ->. rewrite startsWith_prefix in H. discriminate.
Qed.

Lemma not_suffix_endsWith s p : (forall b, s <> b ++ p) -> endsWith s p = false.
Proof.
  intros H. destruct (endsWith s p) eqn:E; [|reflexivity].
  apply endsWith_split in E as [b E]. destruct (H b E).
Qed.

Lemma sanitize_open_only p r :
  (forall b, r <> b ++ fence) ->
  trim (replace_at_end fence (replace_at_start p (p ++ r))) = trim r.
Proof.
  intros H. rewrite replace_at_start_prefix. unfold replace_at_end.
  rewrite (not_suffix_endsWith r fence H). reflexivity.
Qed.

(** C2, amended: what the sanitizer does to every reply, and when a second
    pass changes nothing.  A reply that begins with the annotated opening
    marker loses it, and loses the closing marker too if what follows the
    opening marker ends with it; a reply that begins with the bare opening
    marker, and not with the annotated one, likewise; any other reply
    keeps all its text, a closing marker included.  What remains is
    trimmed in all cases, so the result has no white space at either end.
    A second pass leaves the result as it is exactly when the result does
    not itself begin with the opening marker. *)
Theorem sanitize_strips_trims_idempotent_iff_unfenced (x : jsstring) :
  (forall body, x = fence_latex ++ body ++ fence -> sanitize x = trim body)
  /\ (forall r, x = fence_latex ++ r -> (forall b, r <> b ++ fence) ->
      sanitize x = trim r)
  /\ ((forall r, x <> fence_latex ++ r) ->
      (forall body, x = fence ++ body ++ fence -> sanitize x = trim body)
      /\ (forall r, x = fence ++ r -> (forall b, r <> b ++ fence) ->
          sanitize x = trim r))
  /\ ((forall r, x <> fence ++ r) -> sanitize x = trim x)
  /\ no_lead (sanitize x)
  /\ no_lead (rev (sanitize x))
  /\ ((forall r, sanitize x <> fence ++ r)
      <-> sanitize (sanitize x) = sanitize x).
Proof.
  split; [|split; [|split; [|split; [|split; [|split]]]]].
  - intros body ->. unfold sanitize.
    rewrite startsWith_prefix, replace_at_start_prefix, replace_at_end_suffix.
    reflexivity.
  - intros r -> H. unfold sanitize. rewrite startsWith_prefix.
    apply sanitize_open_only. exact H.
  - intros H. apply not_prefix_iff in H. split.
    + intros body ->. unfold sanitize. rewrite H.
      rewrite startsWith_prefix, replace_at_start_prefix, replace_at_end_suffix.
      reflexivity.
    + intros r -> Hb. unfold sanitize. rewrite H.
      rewrite startsWith_prefix. apply sanitize_open_only. exact Hb.
  - intros H. apply sanitize_unfenced, not_prefix_iff, H.
  - unfold sanitize. apply trim_no_lead.
  - unfold sanitize. apply trim_no_trail.
  - split.
    + intros H. apply sanitize_idempotent_iff_unfenced, not_prefix_iff, H.
    + intros H. apply not_prefix_iff, sanitize_idempotent_iff_unfenced, H.
Qed.

Lemma sanitize_strips_trims_idempotent_iff_unfenced_witness :
  sanitize reply_fenced = trim ([10%N] ++ lit "\documentclass{article}" ++ [10%N])
  /\ sanitize (lit "```latex" ++ lit "X") = trim (lit "X")
  /\ sanitize (lit "X```") = trim (lit "X```")
  /\ sanitize (sanitize reply_fenced) = sanitize reply_fenced.
Proof.
  split; [|split; [|split]].
  - apply (proj1 (sanitize_strips_trims_idempotent_iff_unfenced reply_fenced)
             ([10%N] ++ lit "\documentclass{article}" ++ [10%N])).
    reflexivity.
  - apply (proj1 (proj2 (sanitize_strips_trims_idempotent_iff_unfenced
                           (lit "```latex" ++ lit "X"))) (lit "X")).
    + reflexivity.
    + intros b H. apply (f_equal (@rev N)) in H.
      rewrite rev_app_distr in H. vm_compute in H. discriminate.
  - apply (proj1 (proj2 (proj2 (proj2
             (sanitize_strips_trims_idempotent_iff_unfenced (lit "X```")))))).
    intros r H. vm_compute in H. discriminate.
  - apply (proj1 (proj2 (proj2 (proj2 (proj2 (proj2 (proj2
             (sanitize_strips_trims_idempotent_iff_unfenced reply_fenced)))))))).
    intros r H. vm_compute in H. discriminate.
Defined.
